(** * a11y-mcp: the two tool handlers of [src/index.js]

    The server exposes two tools, [audit_webpage] and [get_summary].  Each
    drives a headless browser (puppeteer), runs the axe rule engine on the
    loaded page and reshapes the engine's result into a JSON text payload.

    The browser, the rule engine and the clock are external: they are a
    [Host] record that fixes the outcome of every external call of one
    request.  The handlers are written in a small state-and-exception monad
    whose state is the log of external calls made so far. *)

From Stdlib Require Import List String Ascii ZArith Lia Bool Arith.
From Stdlib Require Import DecimalString Sorting.Sorted Sorting.Permutation.
Import ListNotations.

Local Set Warnings "-register-all".
Local Open Scope list_scope.
Local Open Scope string_scope.

(** ** JavaScript values *)

Module JS.

(** The values the handlers build and pass around.  [Num] holds the integers
  the code computes (array lengths); an object is its list of own
  properties in insertion order. *)
Inductive value : Type :=
| Undefined
| Null
| Bool (b : bool)
| Num (n : Z)
| Str (s : string)
| Arr (items : list value)
| Obj (props : list (string * value)).

(** Own-property lookup, [None] when the object has no such property. *)
Fixpoint lookup {V : Type} (k : string) (props : list (string * V)) : option V :=
match props with
| [] => None
| (k', v) :: rest => if String.eqb k k' then Some v else lookup k rest
end.

Definition get (k : string) (o : value) : option value :=
match o with
| Obj props => lookup k props
| _ => None
end.

Definition keys (o : value) : list string :=
match o with
| Obj props => map fst props
| _ => []
end.

(** [o.k = v]: overwrite the property in place, or append it. *)
Fixpoint assign (k : string) (v : value) (props : list (string * value))
: list (string * value) :=
match props with
| [] => [(k, v)]
| (k', v') :: rest =>
    if String.eqb k k' then (k', v) :: rest else (k', v') :: assign k v rest
end.

Definition set (k : string) (v : value) (o : value) : value :=
match o with
| Obj props => Obj (assign k v props)
| _ => o
end.

(** *** JSON.stringify(v, null, 2) *)

Definition chr (n : nat) : string := String (ascii_of_nat n) EmptyString.
Definition LF : string := chr 10.
Definition DQUOTE : string := chr 34.

Definition hex_digit (n : nat) : string :=
match n with
| 10 => "a" | 11 => "b" | 12 => "c" | 13 => "d" | 14 => "e" | 15 => "f"
| _ => chr (48 + n)
end.

(** QuoteJSONString on one character. *)
Definition quote_char (c : ascii) : string :=
let n := nat_of_ascii c in
match n with
| 8 => "\b"
| 9 => "\t"
| 10 => "\n"
| 12 => "\f"
| 13 => "\r"
| 34 => "\" ++ DQUOTE
| 92 => "\\"
| _ => if Nat.ltb n 32
       then "\u00" ++ hex_digit (n / 16) ++ hex_digit (n mod 16)
       else String c EmptyString
end.

Fixpoint quote_chars (s : string) : string :=
match s with
| EmptyString => EmptyString
| String c rest => quote_char c ++ quote_chars rest
end.

Definition QuoteJSONString (s : string) : string :=
DQUOTE ++ quote_chars s ++ DQUOTE.

Definition number_to_string (n : Z) : string :=
NilZero.string_of_int (Z.to_int n).

Fixpoint join (sep : string) (parts : list string) : string :=
match parts with
| [] => EmptyString
| [p] => p
| p :: rest => p ++ sep ++ join sep rest
end.

(** SerializeJSONProperty with a gap of two spaces; [None] is the result
  [undefined], which drops a property from an object and prints as
  [null] inside an array. *)
Fixpoint serialize (indent : string) (v : value) : option string :=
let stepback := indent in
let indent := indent ++ "  " in
let separator := "," ++ LF ++ indent in
match v with
| Undefined => None
| Null => Some "null"
| Bool true => Some "true"
| Bool false => Some "false"
| Num n => Some (number_to_string n)
| Str s => Some (QuoteJSONString s)
| Arr items =>
    let partial :=
      map (fun item => match serialize indent item with
                       | Some s => s
                       | None => "null"
                       end) items in
    match partial with
    | [] => Some "[]"
    | _ => Some ("[" ++ LF ++ indent ++ join separator partial
                     ++ LF ++ stepback ++ "]")
    end
| Obj props =>
    let partial :=
      flat_map (fun kv => match serialize indent (snd kv) with
                          | Some s => [QuoteJSONString (fst kv) ++ ": " ++ s]
                          | None => []
                          end) props in
    match partial with
    | [] => Some "{}"
    | _ => Some ("{" ++ LF ++ indent ++ join separator partial
                     ++ LF ++ stepback ++ "}")
    end
end.

(** The handlers serialise object literals only, for which the result is a
  string; the [None] branch stands for the non-string result [undefined]. *)
Definition JSON_stringify (v : value) : string :=
match serialize EmptyString v with
| Some s => s
| None => EmptyString
end.

End JS.
Import JS.

(** ** Array.prototype.sort

    [comparefn] returns a JavaScript number, [None] standing for NaN.  The
    algorithm is the one Node's engine runs on an array of fewer than 64
    elements: the leading run is found (and reversed when strictly
    descending), then every further element is placed by binary insertion.
    On longer arrays the engine merges several such runs; for a comparator
    that is consistent on the elements the outcome is the same, since the
    language requires the sort to be stable. *)

Section ArraySort.

Context {A : Type}.
Variable comparefn : A -> A -> option Z.

(** SortCompare: a NaN result counts as +0. *)
Definition SortCompare (x y : A) : Z :=
  match comparefn x y with
  | Some v => v
  | None => 0%Z
  end.

(** [order < 0], the only test the algorithm makes on a comparison. *)
Definition order_lt0 (x y : A) : bool := (SortCompare x y <? 0)%Z.

(** The loop of CountAndMakeRun: how many elements after [previous]
    continue the run. *)
Fixpoint run_extent (isDescending : bool) (previous : A) (l : list A) : nat :=
  match l with
  | [] => 0
  | current :: rest =>
      let stop := if isDescending
                  then negb (order_lt0 current previous)
                  else order_lt0 current previous in
      if stop then 0 else S (run_extent isDescending current rest)
  end.

(** CountAndMakeRun: the leading run made ascending, and what follows. *)
Definition CountAndMakeRun (l : list A) : list A * list A :=
  match l with
  | elementHigh :: elementLow :: rest =>
      let isDescending := order_lt0 elementLow elementHigh in
      let runLength := 2 + run_extent isDescending elementLow rest in
      let run := firstn runLength l in
      (if isDescending then rev run else run, skipn runLength l)
  | _ => (l, [])
  end.

(** The binary search of BinaryInsertionSort; [right - left] shrinks at
    every turn, so [fuel = right - left] turns are enough. *)
Fixpoint search (fuel : nat) (work : list A) (pivot : A) (left right : nat)
  : nat :=
  match fuel with
  | O => left
  | S fuel' =>
      if Nat.ltb left right then
        let mid := left + Nat.div2 (right - left) in
        match nth_error work mid with
        | Some x =>
            if order_lt0 pivot x
            then search fuel' work pivot left mid
            else search fuel' work pivot (mid + 1) right
        | None => left
        end
      else left
  end.

Definition insert_at (work : list A) (pos : nat) (pivot : A) : list A :=
  (firstn pos work ++ pivot :: skipn pos work)%list.

Definition binary_insert (work : list A) (pivot : A) : list A :=
  let n := List.length work in
  insert_at work (search n work pivot 0 n) pivot.

Definition BinaryInsertionSort (run rest : list A) : list A :=
  fold_left binary_insert rest run.

Definition Array_sort (l : list A) : list A :=
  if Nat.ltb (List.length l) 2 then l
  else let (run, rest) := CountAndMakeRun l in BinaryInsertionSort run rest.

End ArraySort.

(** ** The rule engine's result (axe-core) *)

(** [impact] of a finding: absent, [null] or a string. *)
Inductive ImpactValue : Type :=
| impact_undefined
| impact_null
| impact_string (s : string).

Definition impact_value (i : ImpactValue) : value :=
  match i with
  | impact_undefined => Undefined
  | impact_null => Null
  | impact_string s => Str s
  end.

(** [i === s] for a string literal [s]. *)
Definition impact_is (s : string) (i : ImpactValue) : bool :=
  match i with
  | impact_string s' => String.eqb s' s
  | _ => false
  end.

(** The property key an impact turns into when it indexes an object. *)
Definition impact_key (i : ImpactValue) : string :=
  match i with
  | impact_undefined => "undefined"
  | impact_null => "null"
  | impact_string s => s
  end.

(** An affected node; the handlers read these four fields only and pass
    them on untouched. *)
Record NodeResult : Type := {
  node_html : value;
  node_impact : value;
  node_target : value;
  node_failureSummary : value
}.

Record Result : Type := {
  id : value;
  impact : ImpactValue;
  description : value;
  helpUrl : value;
  nodes : list NodeResult
}.

Record AxeResults : Type := {
  violations : list Result;
  passes : list Result;
  incomplete : list Result;
  inapplicable : list Result
}.

(** ** Requests and responses *)

(** The arguments of a tool call, typed as the tools' [inputSchema]
    declares them; [None] is an absent property. *)
Record Args : Type := {
  url : option string;
  includeHtml : option bool;
  tags : option (list string)
}.

Inductive ErrorCode : Type :=
| MethodNotFound
| InvalidParams.

Definition ErrorCode_number (c : ErrorCode) : Z :=
  match c with
  | MethodNotFound => (-32601)%Z
  | InvalidParams => (-32602)%Z
  end.

(** What a handler can throw: the protocol's [McpError], or an [Error]
    raised by the browser or the engine. *)
Inductive exn : Type :=
| McpError (code : ErrorCode) (text : string)
| Error (message : string).

(** [error.message]; the protocol library prefixes an [McpError]'s text with
    its code. *)
Definition exn_message (e : exn) : string :=
  match e with
  | McpError code text =>
      "MCP error " ++ number_to_string (ErrorCode_number code) ++ ": " ++ text
  | Error message => message
  end.

Record TextContent : Type := {
  type : string;
  text : string
}.

Record CallToolResult : Type := {
  content : list TextContent;
  isError : option bool
}.

(** ** The outside world of one request *)

(** The external calls a handler makes, with the arguments it passes. *)
Inductive call : Type :=
| puppeteer_launch
| browser_newPage
| page_setViewport (width height : Z)
| page_goto (target : string) (waitUntil : string) (timeout : Z)
| axe_analyze (options : option value)
| browser_close.

Inductive event : Type :=
| Returns (c : call)
| Throws (c : call) (message : string).

Inductive result (A : Type) : Type :=
| Ok (a : A)
| Fails (message : string).
Arguments Ok {A} a.
Arguments Fails {A} message.

(** How the browser, the engine and the clock answer during one request.
    [analyze] is given the address the page was sent to and the options set
    on the engine ([None] when the handler sets none). *)
Record Host : Type := {
  launch : result unit;
  newPage : result unit;
  setViewport : result unit;
  goto : string -> result unit;
  analyze : string -> option value -> result AxeResults;
  close : result unit;
  now : string
}.

(** ** The handler monad: a log of external calls, and exceptions *)

Inductive outcome (A : Type) : Type :=
| Returned (a : A)
| Thrown (e : exn).
Arguments Returned {A} a.
Arguments Thrown {A} e.

Definition M (A : Type) : Type := list event -> outcome A * list event.

Definition ret {A : Type} (a : A) : M A := fun log => (Returned a, log).

Definition throw {A : Type} (e : exn) : M A := fun log => (Thrown e, log).

Definition bind {A B : Type} (m : M A) (k : A -> M B) : M B :=
  fun log =>
    match m log with
    | (Returned a, log') => k a log'
    | (Thrown e, log') => (Thrown e, log')
    end.

(** [try { body } catch (error) { handler }] *)
Definition try_catch {A : Type} (body : M A) (handler : exn -> M A) : M A :=
  fun log =>
    match body log with
    | (Returned a, log') => (Returned a, log')
    | (Thrown e, log') => handler e log'
    end.

(** An awaited external call: logged, then its result or its [Error]. *)
Definition await {A : Type} (c : call) (r : result A) : M A :=
  fun log =>
    match r with
    | Ok a => (Returned a, (log ++ [Returns c])%list)
    | Fails message => (Thrown (Error message), (log ++ [Throws c message])%list)
    end.

Declare Scope handler_scope.
Delimit Scope handler_scope with handler.
Notation "x <- m ;; k" := (bind m (fun x => k))
  (at level 61, m at next level, right associativity) : handler_scope.
Notation "m ;; k" := (bind m (fun _ => k))
  (at level 61, right associativity) : handler_scope.
Local Open Scope handler_scope.

(** ** auditWebpage *)

Definition text_result (s : string) (flag : option bool) : CallToolResult :=
  {| content := [ {| type := "text"; text := s |} ]; isError := flag |}.

Definition axeOptions (args : Args) : value :=
  match tags args with
  | Some ((_ :: _) as values) =>
      Obj [("runOnly", Obj [("type", Str "tag"); ("values", Arr (map Str values))])]
  | _ => Obj []
  end.

Definition formattedNode (args : Args) (node : NodeResult) : value :=
  let formattedNode :=
    Obj [("impact", node_impact node);
         ("target", node_target node);
         ("failureSummary", node_failureSummary node)] in
  match includeHtml args with
  | Some true => set "html" (node_html node) formattedNode
  | _ => formattedNode
  end.

Definition formattedViolation (args : Args) (violation : Result) : value :=
  Obj [("id", id violation);
       ("impact", impact_value (impact violation));
       ("description", description violation);
       ("helpUrl", helpUrl violation);
       ("nodes", Arr (map (formattedNode args) (nodes violation)))].

Definition count {A : Type} (l : list A) : value := Num (Z.of_nat (List.length l)).

Definition formattedResults (args : Args) (address timestamp : string)
    (results : AxeResults) : value :=
  Obj [("url", Str address);
       ("timestamp", Str timestamp);
       ("violations", Arr (map (formattedViolation args) (violations results)));
       ("passes", count (passes results));
       ("incomplete", count (incomplete results));
       ("inapplicable", count (inapplicable results))].

(** [!args.url] holds when the property is absent and when it is the empty
    string; otherwise the whole body runs inside the [try]. *)
Definition auditWebpage (host : Host) (args : Args) : M CallToolResult :=
  match url args with
  | Some ((String _ _) as address) =>
      try_catch
        (await puppeteer_launch (launch host) ;;
         await browser_newPage (newPage host) ;;
         await (page_setViewport 1280 800) (setViewport host) ;;
         await (page_goto address "networkidle2" 30000) (goto host address) ;;
         let axeOptions := axeOptions args in
         results <- await (axe_analyze (Some axeOptions))
                          (analyze host address (Some axeOptions)) ;;
         await browser_close (close host) ;;
         let formattedResults :=
           formattedResults args address (now host) results in
         ret (text_result (JSON_stringify formattedResults) None))
        (fun error =>
           ret (text_result ("Error auditing webpage: " ++ exn_message error)
                            (Some true)))
  | _ => throw (McpError InvalidParams "URL is required")
  end.

(** ** getSummary *)

Definition impactOrder : list (string * Z) :=
  [("critical", 0%Z); ("serious", 1%Z); ("moderate", 2%Z); ("minor", 3%Z)].

(** [impactOrder[v.impact]] as a number: one of the four ranks, or NaN for
    every other key (a missing property, or one inherited from the object
    prototype, is not a number). *)
Definition impactRank (v : Result) : option Z :=
  lookup (impact_key (impact v)) impactOrder.

(** [impactOrder[a.impact] - impactOrder[b.impact]] *)
Definition compareImpact (a b : Result) : option Z :=
  match impactRank a, impactRank b with
  | Some x, Some y => Some (x - y)%Z
  | _, _ => None
  end.

Definition severityCount (s : string) (vs : list Result) : value :=
  count (filter (fun v => impact_is s (impact v)) vs).

Definition topIssue (violation : Result) : value :=
  Obj [("id", id violation);
       ("impact", impact_value (impact violation));
       ("description", description violation);
       ("helpUrl", helpUrl violation)].

Definition topIssues (vs : list Result) : list value :=
  map topIssue (firstn 5 (Array_sort compareImpact vs)).

(** The counts are taken before [sort] reorders the engine's array in
    place; nothing reads that array afterwards. *)
Definition summary (address timestamp : string) (results : AxeResults) : value :=
  Obj [("url", Str address);
       ("timestamp", Str timestamp);
       ("totalIssues", count (violations results));
       ("issuesBySeverity",
        Obj [("critical", severityCount "critical" (violations results));
             ("serious", severityCount "serious" (violations results));
             ("moderate", severityCount "moderate" (violations results));
             ("minor", severityCount "minor" (violations results))]);
       ("topIssues", Arr (topIssues (violations results)));
       ("passedTests", count (passes results));
       ("incompleteTests", count (incomplete results))].

Definition getSummary (host : Host) (args : Args) : M CallToolResult :=
  match url args with
  | Some ((String _ _) as address) =>
      try_catch
        (await puppeteer_launch (launch host) ;;
         await browser_newPage (newPage host) ;;
         await (page_setViewport 1280 800) (setViewport host) ;;
         await (page_goto address "networkidle2" 30000) (goto host address) ;;
         results <- await (axe_analyze None) (analyze host address None) ;;
         await browser_close (close host) ;;
         let summary := summary address (now host) results in
         ret (text_result (JSON_stringify summary) None))
        (fun error =>
           ret (text_result ("Error getting summary: " ++ exn_message error)
                            (Some true)))
  | _ => throw (McpError InvalidParams "URL is required")
  end.

(** ** The request router *)

Definition callTool (host : Host) (name : string) (arguments : Args)
  : M CallToolResult :=
  if String.eqb name "audit_webpage" then auditWebpage host arguments
  else if String.eqb name "get_summary" then getSummary host arguments
  else throw (McpError MethodNotFound ("Unknown tool: " ++ name)).

(** ** What a run of a handler did *)

Definition failure {A : Type} (r : result A) : option string :=
  match r with
  | Ok _ => None
  | Fails message => Some message
  end.

Fixpoint first_failure (steps : list (option string)) : option string :=
  match steps with
  | [] => None
  | Some message :: _ => Some message
  | None :: rest => first_failure rest
  end.

(** The message of the first external call that fails when a session is
    run against [address] with the engine [options], if any does. *)
Definition session_failure (host : Host) (address : string)
    (options : option value) : option string :=
  first_failure
    [failure (launch host); failure (newPage host); failure (setViewport host);
     failure (goto host address); failure (analyze host address options);
     failure (close host)].

Definition launched (log : list event) : Prop :=
  In (Returns puppeteer_launch) log.

Definition close_called (log : list event) : Prop :=
  In (Returns browser_close) log \/ exists m, In (Throws browser_close m) log.

Definition is_close (e : event) : bool :=
  match e with
  | Returns browser_close | Throws browser_close _ => true
  | _ => false
  end.

Definition error_result (prefix message : string) : CallToolResult :=
  text_result (prefix ++ message) (Some true).

Definition url_required : exn := McpError InvalidParams "URL is required".

(** A successful response: the error flag is not set. *)
Definition succeeded (r : CallToolResult) : Prop := isError r = None.

Definition session_log (address : string) (options : option value) : list event :=
  [Returns puppeteer_launch; Returns browser_newPage;
   Returns (page_setViewport 1280 800);
   Returns (page_goto address "networkidle2" 30000);
   Returns (axe_analyze options); Returns browser_close].

(** ** Sample requests and hosts *)

Module Sample.

Definition link_node : NodeResult :=
  {| node_html := Str "<a href=#></a>";
     node_impact := Str "serious";
     node_target := Arr [Str "a"];
     node_failureSummary := Str "Fix any of the following" |}.

Definition finding (name : string) (i : ImpactValue) : Result :=
  {| id := Str name; impact := i;
     description := Str "description"; helpUrl := Str "help";
     nodes := [link_node] |}.

Definition clean_page : AxeResults :=
  {| violations := []; passes := [finding "document-title" impact_null];
     incomplete := []; inapplicable := [] |}.

Definition page_with (vs : list Result) : AxeResults :=
  {| violations := vs; passes := []; incomplete := []; inapplicable := [] |}.

(** A host on which every call returns and the engine reports [results]. *)
Definition serving (results : AxeResults) : Host :=
  {| launch := Ok tt; newPage := Ok tt; setViewport := Ok tt;
     goto := fun _ => Ok tt;
     analyze := fun _ _ => Ok results;
     close := Ok tt;
     now := "2024-05-01T10:00:00.000Z" |}.

(** Navigation runs into the 30 second limit. *)
Definition unreachable : Host :=
  {| launch := Ok tt; newPage := Ok tt; setViewport := Ok tt;
     goto := fun _ => Fails "Navigation timeout of 30000 ms exceeded";
     analyze := fun _ _ => Ok clean_page;
     close := Ok tt;
     now := "2024-05-01T10:00:00.000Z" |}.

(** The page loads and the engine throws while evaluating it. *)
Definition engine_failing : Host :=
  {| launch := Ok tt; newPage := Ok tt; setViewport := Ok tt;
     goto := fun _ => Ok tt;
     analyze := fun _ _ => Fails "Execution context was destroyed";
     close := Ok tt;
     now := "2024-05-01T10:00:00.000Z" |}.

(** The browser cannot be started. *)
Definition no_browser : Host :=
  {| launch := Fails "Failed to launch the browser process";
     newPage := Ok tt; setViewport := Ok tt;
     goto := fun _ => Ok tt;
     analyze := fun _ _ => Ok clean_page;
     close := Ok tt;
     now := "2024-05-01T10:00:00.000Z" |}.

Definition request (address : string) : Args :=
  {| url := Some address; includeHtml := None; tags := None |}.

Definition no_url : Args :=
  {| url := None; includeHtml := Some true; tags := Some ["wcag2a"] |}.

Definition empty_url : Args :=
  {| url := Some ""; includeHtml := None; tags := None |}.

End Sample.

(** ** Vocabulary of the statements *)

(** The same browser and engine read at another moment. *)
Definition at_time (host : Host) (timestamp : string) : Host :=
  {| launch := launch host; newPage := newPage host;
     setViewport := setViewport host; goto := goto host;
     analyze := analyze host; close := close host;
     now := timestamp |}.

(** An engine run that carries no options, hence no tag filter. *)
Definition unfiltered (e : event) : Prop :=
  match e with
  | Returns (axe_analyze options) | Throws (axe_analyze options) _ =>
      options = None
  | _ => True
  end.

(** The single text item of a response. *)
Definition payload (r : CallToolResult) : option string :=
  match content r with
  | [item] => Some (text item)
  | _ => None
  end.

(** One of the four severities the summary knows. *)
Definition recognized (i : ImpactValue) : bool :=
  impact_is "critical" i || impact_is "serious" i
  || impact_is "moderate" i || impact_is "minor" i.

(** How many findings of [vs] have exactly the severity [s]. *)
Definition bucket (s : string) (vs : list Result) : list Result :=
  filter (fun v => impact_is s (impact v)) vs.

(** ** The stable arrangement by a key

    The reference against which [Array_sort] is checked: every element is
    put after the elements whose key is not larger, in list order. *)

Section StableOrder.

Context {A : Type}.
Variable key : A -> Z.

Fixpoint insert_by (x : A) (l : list A) : list A :=
  match l with
  | [] => [x]
  | y :: rest =>
      if (key x <? key y)%Z then x :: l else y :: insert_by x rest
  end.

Definition place (sorted : list A) (x : A) : list A := insert_by x sorted.

Definition sort_by (l : list A) : list A := fold_left place l [].

Definition key_le (a b : A) : Prop := (key a <= key b)%Z.

End StableOrder.

(** The rank used to compare two findings whose severities are both
    recognized; [4] is a filler for the others. *)
Definition rank_key (v : Result) : Z :=
  match impactRank v with
  | Some r => r
  | None => 4%Z
  end.

(** The rank of an entry of [topIssues], read from its [impact] property. *)
Definition issue_rank (issue : value) : option Z :=
  match get "impact" issue with
  | Some (Str s) => lookup s impactOrder
  | _ => None
  end.

Definition issue_has_severity (s : string) (issue : value) : bool :=
  match get "impact" issue with
  | Some (Str s') => String.eqb s' s
  | _ => false
  end.

(** No entry with a rank is followed, at any distance, by an entry of a
    smaller rank. *)
Definition rank_nondecreasing (issues : list value) : Prop :=
  forall i j x y rx ry,
    (i < j)%nat ->
    nth_error issues i = Some x -> nth_error issues j = Some y ->
    issue_rank x = Some rx -> issue_rank y = Some ry ->
    (rx <= ry)%Z.

Definition severities : list string :=
  ["critical"; "serious"; "moderate"; "minor"].

(** Within every severity the entries come in the engine's order: they are
    the first ones of that severity the engine reported. *)
Definition engine_order_kept (vs : list Result) (issues : list value) : Prop :=
  forall s, In s severities ->
    exists k, filter (issue_has_severity s) issues
              = firstn k (map topIssue (bucket s vs)).

(** ** Tool discovery *)

(** The answer of the ListTools handler: the two tool descriptors with their
    input schemas. *)
Definition listTools : value :=
  Obj [("tools", Arr [
    Obj [("name", Str "audit_webpage");
         ("description", Str "Perform an accessibility audit on a webpage");
         ("inputSchema",
          Obj [("type", Str "object");
               ("properties",
                Obj [("url",
                      Obj [("type", Str "string");
                           ("description", Str "URL of the webpage to audit")]);
                     ("includeHtml",
                      Obj [("type", Str "boolean");
                           ("description",
                            Str "Whether to include HTML snippets in the results");
                           ("default", Bool false)]);
                     ("tags",
                      Obj [("type", Str "array");
                           ("items", Obj [("type", Str "string")]);
                           ("description",
                            Str "Specific accessibility tags to check (e.g., wcag2a, wcag2aa, wcag21a, best-practice)")])]);
               ("required", Arr [Str "url"])])];
    Obj [("name", Str "get_summary");
         ("description", Str "Get a summary of accessibility issues for a webpage");
         ("inputSchema",
          Obj [("type", Str "object");
               ("properties",
                Obj [("url",
                      Obj [("type", Str "string");
                           ("description", Str "URL of the webpage to audit")])]);
               ("required", Arr [Str "url"])])]])].

(** *** Reading a descriptor *)

Definition array_items (v : option value) : list value :=
  match v with
  | Some (Arr items) => items
  | _ => []
  end.


Definition listed_tools : list value := array_items (get "tools" listTools).

Definition tool_name (tool : value) : option string :=
  match get "name" tool with
  | Some (Str s) => Some s
  | _ => None
  end.

Definition tool_names : list string :=
  flat_map (fun tool => match tool_name tool with
                        | Some s => [s]
                        | None => []
                        end) listed_tools.

Definition inputSchema (tool : value) : value :=
  match get "inputSchema" tool with
  | Some schema => schema
  | None => Undefined
  end.



(** The [default] a schema declares for a parameter, if any. *)
Definition declared_default (tool : value) (parameter : string) : option value :=
  match get "properties" (inputSchema tool) with
  | Some properties =>
      match get parameter properties with
      | Some declaration => get "default" declaration
      | None => None
      end
  | None => None
  end.


(** ** Reading the log *)

Definition call_of (e : event) : call :=
  match e with
  | Returns c | Throws c _ => c
  end.



(** The options of an engine run, for the events that are one. *)
Definition engine_options (e : event) : option (option value) :=
  match e with
  | Returns (axe_analyze options) | Throws (axe_analyze options) _ => Some options
  | _ => None
  end.

Definition with_includeHtml (args : Args) (flag : option bool) : Args :=
  {| url := url args; includeHtml := flag; tags := tags args |}.

Definition with_tags (args : Args) (values : option (list string)) : Args :=
  {| url := url args; includeHtml := includeHtml args; tags := values |}.

Module Scenario.

(** The audit itself goes through and the browser then fails to close. *)
Definition close_failing (results : AxeResults) : Host :=
  {| launch := Ok tt; newPage := Ok tt; setViewport := Ok tt;
     goto := fun _ => Ok tt;
     analyze := fun _ _ => Ok results;
     close := Fails "Protocol error: Connection closed";
     now := "2024-05-01T10:00:00.000Z" |}.

Definition mixed_findings : list Result :=
  [Sample.finding "color-contrast" (impact_string "serious");
   Sample.finding "region" (impact_string "moderate");
   Sample.finding "image-alt" (impact_string "critical");
   Sample.finding "link-name" (impact_string "serious");
   Sample.finding "heading-order" (impact_string "moderate");
   Sample.finding "label" (impact_string "critical");
   Sample.finding "tabindex" (impact_string "minor")].

End Scenario.

(** * release.sh

    The release script, run under [set -e].  What it cannot decide by
    itself (files present, commands' exit statuses and outputs, the
    inherited environment) is a [Shell] record; what it does (commands run,
    lines printed) is the list of actions it emits. *)

Module Release.

Inductive Color : Type := GREEN | YELLOW | RED.

(** The external commands of the script, with the text that varies. *)
Inductive command : Type :=
| git_status_porcelain
| node_p (script : string)
| grep_q_test
| npm_test
| npm_version (version : string)
| chmod_x_index
| git_add_package_json
| git_commit (message : string)
| git_tag (name message : string)
| npm_publish.

Inductive action : Type :=
| echo (line : string)
| print (color : Color) (line : string)
| exec (c : command).

Record Shell : Type := {
  package_json : bool;
  inherited_CUSTOM_VERSION : string;
  git_command : bool;
  git_directory : bool;
  status : command -> nat;
  stdout : command -> string
}.

Inductive step (A : Type) : Type :=
| Next (a : A)
| Exit (code : nat).
Arguments Next {A} a.
Arguments Exit {A} code.

(** A piece of script: how it ends and what it emitted. *)
Definition Sh (A : Type) : Type := (step A * list action)%type.

Definition ret {A : Type} (a : A) : Sh A := (Next a, []).

Definition exit {A : Type} (code : nat) : Sh A := (Exit code, []).

Definition bind {A B : Type} (m : Sh A) (k : A -> Sh B) : Sh B :=
  match m with
  | (Next a, emitted) => let (r, more) := k a in (r, (emitted ++ more)%list)
  | (Exit code, emitted) => (Exit code, emitted)
  end.

Definition emit (a : action) : Sh unit := (Next tt, [a]).

Declare Scope sh_scope.
Delimit Scope sh_scope with sh.
Notation "x <- m ;; k" := (bind m (fun x => k))
  (at level 61, m at next level, right associativity) : sh_scope.
Notation "m ;; k" := (bind m (fun _ => k))
  (at level 61, right associativity) : sh_scope.
Local Open Scope sh_scope.

(** A simple command: under [set -e] a non-zero status ends the script with
    that status. *)
Definition run (sh : Shell) (c : command) : Sh unit :=
  (if Nat.eqb (status sh c) 0 then Next tt else Exit (status sh c), [exec c]).

(** [VAR=$(command)]: the assignment has the command's status. *)
Definition assign_output (sh : Shell) (c : command) : Sh string :=
  (if Nat.eqb (status sh c) 0 then Next (stdout sh c) else Exit (status sh c),
   [exec c]).

(** [$(command)] inside a test: only the output counts. *)
Definition substitute (sh : Shell) (c : command) : Sh string :=
  (Next (stdout sh c), [exec c]).

(** A command used as a condition. *)
Definition succeeds (sh : Shell) (c : command) : Sh bool :=
  (Next (Nat.eqb (status sh c) 0), [exec c]).

Definition print_green (line : string) : Sh unit := emit (print GREEN line).
Definition print_yellow (line : string) : Sh unit := emit (print YELLOW line).
Definition print_red (line : string) : Sh unit := emit (print RED line).

(** *** validate_version: [^[0-9]+\.[0-9]+\.[0-9]+$] *)

Definition is_digit (c : ascii) : bool :=
  Nat.leb 48 (nat_of_ascii c) && Nat.leb (nat_of_ascii c) 57.

Fixpoint skip_digits (s : string) : string :=
  match s with
  | String c rest => if is_digit c then skip_digits rest else s
  | EmptyString => EmptyString
  end.

(** [[0-9]+] at the head of [s]; what follows the digits. *)
Definition digits (s : string) : option string :=
  match s with
  | String c rest => if is_digit c then Some (skip_digits rest) else None
  | EmptyString => None
  end.

(** [\.] at the head of [s]. *)
Definition dot (s : string) : option string :=
  match s with
  | String c rest => if Ascii.eqb c "."%char then Some rest else None
  | EmptyString => None
  end.

Definition then_ (m : option string) (k : string -> option string)
  : option string :=
  match m with
  | Some rest => k rest
  | None => None
  end.

Definition version_format (v : string) : bool :=
  match then_ (then_ (then_ (then_ (digits v) dot) digits) dot) digits with
  | Some EmptyString => true
  | _ => false
  end.

Definition validate_version (v : string) : Sh unit :=
  if version_format v then ret tt
  else print_red "Error: Version must be in the format x.y.z" ;; exit 1.

(** *** Options *)

Inductive VersionType : Type := major | minor | patch.

Record Options : Type := {
  VERSION_TYPE : VersionType;
  SKIP_TESTS : bool;
  SKIP_GIT : bool;
  DRY_RUN : bool;
  FORCE : bool;
  CUSTOM_VERSION : string
}.

Definition defaults (sh : Shell) : Options :=
  {| VERSION_TYPE := patch; SKIP_TESTS := false; SKIP_GIT := false;
     DRY_RUN := false; FORCE := false;
     CUSTOM_VERSION := inherited_CUSTOM_VERSION sh |}.

Definition set_VERSION_TYPE (t : VersionType) (o : Options) : Options :=
  {| VERSION_TYPE := t; SKIP_TESTS := SKIP_TESTS o; SKIP_GIT := SKIP_GIT o;
     DRY_RUN := DRY_RUN o; FORCE := FORCE o;
     CUSTOM_VERSION := CUSTOM_VERSION o |}.

Definition set_SKIP_TESTS (o : Options) : Options :=
  {| VERSION_TYPE := VERSION_TYPE o; SKIP_TESTS := true; SKIP_GIT := SKIP_GIT o;
     DRY_RUN := DRY_RUN o; FORCE := FORCE o;
     CUSTOM_VERSION := CUSTOM_VERSION o |}.

Definition set_SKIP_GIT (o : Options) : Options :=
  {| VERSION_TYPE := VERSION_TYPE o; SKIP_TESTS := SKIP_TESTS o; SKIP_GIT := true;
     DRY_RUN := DRY_RUN o; FORCE := FORCE o;
     CUSTOM_VERSION := CUSTOM_VERSION o |}.

Definition set_DRY_RUN (o : Options) : Options :=
  {| VERSION_TYPE := VERSION_TYPE o; SKIP_TESTS := SKIP_TESTS o;
     SKIP_GIT := SKIP_GIT o; DRY_RUN := true; FORCE := FORCE o;
     CUSTOM_VERSION := CUSTOM_VERSION o |}.

Definition set_FORCE (o : Options) : Options :=
  {| VERSION_TYPE := VERSION_TYPE o; SKIP_TESTS := SKIP_TESTS o;
     SKIP_GIT := SKIP_GIT o; DRY_RUN := DRY_RUN o; FORCE := true;
     CUSTOM_VERSION := CUSTOM_VERSION o |}.

Definition set_CUSTOM_VERSION (v : string) (o : Options) : Options :=
  {| VERSION_TYPE := VERSION_TYPE o; SKIP_TESTS := SKIP_TESTS o;
     SKIP_GIT := SKIP_GIT o; DRY_RUN := DRY_RUN o; FORCE := FORCE o;
     CUSTOM_VERSION := v |}.

(** [${1#*=}]: the argument without its shortest head ending in [=]; the
    whole argument when it has no [=]. *)
Fixpoint after_equals (s : string) : option string :=
  match s with
  | String c rest => if Ascii.eqb c "="%char then Some rest else after_equals rest
  | EmptyString => None
  end.

Definition strip_to_equals (s : string) : string :=
  match after_equals s with
  | Some rest => rest
  | None => s
  end.

Definition usage : list string :=
  ["Usage: ./release.sh [options]";
   "";
   "Options:";
   "  --major                Bump major version (x.0.0)";
   "  --minor                Bump minor version (0.x.0)";
   "  --patch                Bump patch version (0.0.x) [default]";
   "  --version=x.y.z        Set specific version";
   "  --skip-tests           Skip running tests";
   "  --skip-git             Skip git operations (tag and commit)";
   "  --dry-run              Run without making any changes";
   "  --force                Force release even with uncommitted changes (use with caution)";
   "  --help                 Show this help message"].

(** The [while]/[case] loop over the command line. *)
Fixpoint parse_arguments (argv : list string) (o : Options) : Sh Options :=
  match argv with
  | [] => ret o
  | arg :: rest =>
      if String.eqb arg "--major" then parse_arguments rest (set_VERSION_TYPE major o)
      else if String.eqb arg "--minor" then parse_arguments rest (set_VERSION_TYPE minor o)
      else if String.eqb arg "--patch" then parse_arguments rest (set_VERSION_TYPE patch o)
      else if String.prefix "--version=" arg then
        let CUSTOM_VERSION := strip_to_equals arg in
        validate_version CUSTOM_VERSION ;;
        parse_arguments rest (set_CUSTOM_VERSION CUSTOM_VERSION o)
      else if String.eqb arg "--skip-tests" then parse_arguments rest (set_SKIP_TESTS o)
      else if String.eqb arg "--skip-git" then parse_arguments rest (set_SKIP_GIT o)
      else if String.eqb arg "--dry-run" then parse_arguments rest (set_DRY_RUN o)
      else if String.eqb arg "--force" then parse_arguments rest (set_FORCE o)
      else if String.eqb arg "--help" then
        (Next tt, map echo usage) ;; exit 0
      else
        print_red ("Unknown parameter: " ++ arg) ;;
        emit (echo "Use --help for usage information") ;;
        exit 1
  end.

Definition nonempty (s : string) : bool :=
  match s with
  | EmptyString => false
  | String _ _ => true
  end.

(** [[ a ] && [ -d ".git" ] && [ -n "$(git status --porcelain)" ]] *)
Definition dirty_tree_when (sh : Shell) (a : bool) : Sh bool :=
  if a then
    if git_directory sh then
      changes <- substitute sh git_status_porcelain ;; ret (nonempty changes)
    else ret false
  else ret false.

Definition check_git_clean (sh : Shell) (o : Options) : Sh unit :=
  refused <- dirty_tree_when sh (negb (FORCE o)) ;;
  if refused then
    print_red "Error: Working directory is not clean. Please commit or stash your changes before releasing." ;;
    print_yellow "Or use --force to release anyway (use with caution)." ;;
    exit 1
  else
    forced <- dirty_tree_when sh (FORCE o) ;;
    if forced then
      print_yellow "Warning: Working directory is not clean, but --force was used. Proceeding anyway..."
    else ret tt.

(** Lines 92-103; the result is the option record with [SKIP_GIT] as the
    rest of the script sees it. *)
Definition git_setup (sh : Shell) (o : Options) : Sh Options :=
  if SKIP_GIT o then ret o
  else if negb (git_command sh) then
    print_yellow "Warning: git command not found. Git operations will be skipped." ;;
    ret (set_SKIP_GIT o)
  else if negb (git_directory sh) then
    print_yellow "Warning: .git directory not found. Git operations will be skipped." ;;
    ret (set_SKIP_GIT o)
  else check_git_clean sh o ;; ret o.

Definition read_version_script : string := "require('./package.json').version".

(** The script text handed to [node -p] once the shell has expanded it. *)
Definition bump_script (t : VersionType) (CURRENT_VERSION : string) : string :=
  "const [major, minor, patch] = '" ++ CURRENT_VERSION ++ "'.split('.'); "
  ++ match t with
     | major => "`${parseInt(major) + 1}.0.0`"
     | minor => "`${major}.${parseInt(minor) + 1}.0`"
     | patch => "`${major}.${minor}.${parseInt(patch) + 1}`"
     end.

(** Lines 105-122; the result is [NEW_VERSION]. *)
Definition choose_version (sh : Shell) (o : Options) : Sh string :=
  CURRENT_VERSION <- assign_output sh (node_p read_version_script) ;;
  print_yellow ("Current version: " ++ CURRENT_VERSION) ;;
  NEW_VERSION <-
    (if nonempty (CUSTOM_VERSION o) then ret (CUSTOM_VERSION o)
     else assign_output sh (node_p (bump_script (VERSION_TYPE o) CURRENT_VERSION))) ;;
  print_yellow ("New version will be: " ++ NEW_VERSION) ;;
  ret NEW_VERSION.

(** Lines 129-144.  [npm test] is a simple command under [set -e], so the
    check of [$?] that follows it is only reached with status 0. *)
Definition run_tests (sh : Shell) (o : Options) : Sh unit :=
  wanted <- (if negb (SKIP_TESTS o) then succeeds sh grep_q_test else ret false) ;;
  if wanted then
    print_yellow "Running tests..." ;;
    run sh npm_test ;;
    print_green "Tests passed!"
  else if SKIP_TESTS o then print_yellow "Skipping tests as requested."
  else print_yellow "No test script found in package.json. Skipping tests.".

Definition check_mark : string := chr 195 ++ chr 162 ++ chr 197 ++ chr 147
                                  ++ chr 226 ++ chr 128 ++ chr 166.

(** Lines 146-172. *)
Definition publish (sh : Shell) (o : Options) (NEW_VERSION : string) : Sh unit :=
  print_yellow "Updating version in package.json..." ;;
  run sh (npm_version NEW_VERSION) ;;
  print_yellow "Ensuring main script is executable..." ;;
  run sh chmod_x_index ;;
  (if negb (SKIP_GIT o) then
     print_yellow "Committing version change..." ;;
     run sh git_add_package_json ;;
     run sh (git_commit ("chore: bump version to " ++ NEW_VERSION)) ;;
     print_yellow ("Creating git tag v" ++ NEW_VERSION ++ "...") ;;
     run sh (git_tag ("v" ++ NEW_VERSION) ("Release v" ++ NEW_VERSION)) ;;
     print_yellow "You may want to push changes with: git push && git push --tags"
   else ret tt) ;;
  print_yellow "Publishing to npm..." ;;
  run sh npm_publish ;;
  print_green (check_mark ++ " Successfully released version " ++ NEW_VERSION ++ "!") ;;
  print_yellow "To install globally: npm install -g a11y-mcp" ;;
  print_yellow "To use with npx: npx a11y-mcp".

(** The whole script; [argv] is its command line. *)
Definition release (sh : Shell) (argv : list string) : Sh unit :=
  if negb (package_json sh) then
    print_red "Error: package.json not found. Please run this script from the root directory of the project." ;;
    exit 1
  else
    parsed <- parse_arguments argv (defaults sh) ;;
    o <- git_setup sh parsed ;;
    NEW_VERSION <- choose_version sh o ;;
    if DRY_RUN o then
      print_yellow "Dry run mode. No changes will be made." ;; exit 0
    else
      run_tests sh o ;;
      publish sh o NEW_VERSION.

(** The exit status of a run: 0 when the script reaches its end. *)
Definition exit_status {A : Type} (r : Sh A) : nat :=
  match fst r with
  | Next _ => 0
  | Exit code => code
  end.

Definition executed (emitted : list action) : list command :=
  flat_map (fun a => match a with exec c => [c] | _ => [] end) emitted.

(** The commands a piece of script ran, in order. *)
Definition commands {A : Type} (r : Sh A) : list command := executed (snd r).

End Release.

(** ** Vocabulary for the release script *)

Module ReleaseSpec.

Import Release.

Fixpoint all_digits (s : string) : bool :=
  match s with
  | EmptyString => true
  | String c rest => is_digit c && all_digits rest
  end.

(** A non-empty run of the digits 0 to 9. *)
Definition numeral (s : string) : bool := nonempty s && all_digits s.

Definition starts_without_digit (s : string) : Prop :=
  match s with
  | EmptyString => True
  | String c _ => is_digit c = false
  end.

Definition plain_flags : list string :=
  ["--major"; "--minor"; "--patch"; "--skip-tests"; "--skip-git"; "--dry-run";
   "--force"].

Definition version_option (arg : string) : bool := String.prefix "--version=" arg.

(** An argument the loop takes in and goes on. *)
Definition accepted (arg : string) : bool :=
  existsb (String.eqb arg) plain_flags
  || (version_option arg && version_format (strip_to_equals arg)).

Definition given (flag : string) (argv : list string) : bool :=
  existsb (String.eqb flag) argv.

(** Commands that only read. *)
Definition harmless (c : command) : bool :=
  match c with
  | git_status_porcelain | node_p _ => true
  | _ => false
  end.

Definition uses_git (c : command) : bool :=
  match c with
  | git_status_porcelain | git_add_package_json | git_commit _ | git_tag _ _ => true
  | _ => false
  end.

(** Commands that change the package, the repository or the registry. *)
Definition changes (c : command) : bool :=
  match c with
  | npm_version _ | chmod_x_index | git_add_package_json | git_commit _
  | git_tag _ _ | npm_publish => true
  | _ => false
  end.

Definition bump_flag (arg : string) : option VersionType :=
  if String.eqb arg "--major" then Some major
  else if String.eqb arg "--minor" then Some minor
  else if String.eqb arg "--patch" then Some patch
  else None.

(** A shell in which everything is in place and every command succeeds;
    node answers 1.4.2 for the current version and 1.4.3 for any bump. *)
Definition fine : Shell :=
  {| package_json := true; inherited_CUSTOM_VERSION := "";
     git_command := true; git_directory := true;
     status := fun _ => 0;
     stdout := fun c =>
                 match c with
                 | node_p script =>
                     if String.eqb script read_version_script then "1.4.2"
                     else "1.4.3"
                 | _ => ""
                 end |}.

(** The same with a failing test suite. *)
Definition red_tests : Shell :=
  {| package_json := true; inherited_CUSTOM_VERSION := "";
     git_command := true; git_directory := true;
     status := fun c => match c with npm_test => 1 | _ => 0 end;
     stdout := stdout fine |}.

(** The same with uncommitted changes in the working tree. *)
Definition dirty : Shell :=
  {| package_json := true; inherited_CUSTOM_VERSION := "";
     git_command := true; git_directory := true;
     status := fun _ => 0;
     stdout := fun c =>
                 match c with
                 | git_status_porcelain => " M src/index.js"
                 | _ => stdout fine c
                 end |}.


End ReleaseSpec.

(** The bump the loop ends with: the last of the three flags wins. *)
Definition last_bump (argv : list string) (initial : Release.VersionType)
  : Release.VersionType :=
  fold_left (fun t arg => match ReleaseSpec.bump_flag arg with
                          | Some t' => t'
                          | None => t
                          end) argv initial.

(** ** Generic facts *)

Ltac unfold_handler :=
  unfold auditWebpage, getSummary, try_catch, bind, await, ret, throw.

Ltac step_host host :=
  repeat match goal with
  | |- context [launch host] => destruct (launch host) as [[]|?]
  | |- context [newPage host] => destruct (newPage host) as [[]|?]
  | |- context [setViewport host] => destruct (setViewport host) as [[]|?]
  | |- context [goto host ?a] => destruct (goto host a) as [[]|?]
  | |- context [analyze host ?a ?o] => destruct (analyze host a o) as [?|?]
  | |- context [close host] => destruct (close host) as [[]|?]
  end.

Lemma nonempty_address (address : string) :
  address <> "" -> exists c s, address = String c s.
Proof.
  destruct address as [|c s]; [congruence | eauto].
Qed.

Lemma auditWebpage_failure host args log address message :
  url args = Some address -> address <> "" ->
  session_failure host address (Some (axeOptions args)) = Some message ->
  fst (auditWebpage host args log)
  = Returned (error_result "Error auditing webpage: " message).
Proof.
  intros Hu Ha. destruct (nonempty_address _ Ha) as (c & s & ->).
  unfold session_failure. unfold_handler. rewrite Hu.
  step_host host; cbn; intros [= <-]; reflexivity.
Qed.

Lemma auditWebpage_success host args log address :
  url args = Some address -> address <> "" ->
  session_failure host address (Some (axeOptions args)) = None ->
  exists results,
    analyze host address (Some (axeOptions args)) = Ok results /\
    auditWebpage host args log
    = (Returned (text_result
                   (JSON_stringify
                      (formattedResults args address (now host) results)) None),
       (log ++ session_log address (Some (axeOptions args)))%list).
Proof.
  intros Hu Ha. destruct (nonempty_address _ Ha) as (c & s & ->).
  unfold session_failure. unfold_handler. rewrite Hu.
  step_host host; cbn; try discriminate; intros _.
  eexists; split; [reflexivity|].
  repeat rewrite <- app_assoc. reflexivity.
Qed.

Lemma getSummary_failure host args log address message :
  url args = Some address -> address <> "" ->
  session_failure host address None = Some message ->
  fst (getSummary host args log)
  = Returned (error_result "Error getting summary: " message).
Proof.
  intros Hu Ha. destruct (nonempty_address _ Ha) as (c & s & ->).
  unfold session_failure. unfold_handler. rewrite Hu.
  step_host host; cbn; intros [= <-]; reflexivity.
Qed.

Lemma getSummary_success host args log address :
  url args = Some address -> address <> "" ->
  session_failure host address None = None ->
  exists results,
    analyze host address None = Ok results /\
    getSummary host args log
    = (Returned (text_result
                   (JSON_stringify (summary address (now host) results)) None),
       (log ++ session_log address None)%list).
Proof.
  intros Hu Ha. destruct (nonempty_address _ Ha) as (c & s & ->).
  unfold session_failure. unfold_handler. rewrite Hu.
  step_host host; cbn; try discriminate; intros _.
  eexists; split; [reflexivity|].
  repeat rewrite <- app_assoc. reflexivity.
Qed.

(** A response without the error flag can only come from the end of the
    [try] block. *)
Lemma auditWebpage_succeeded host args log r log' :
  auditWebpage host args log = (Returned r, log') -> succeeded r ->
  exists address results,
    url args = Some address /\ address <> "" /\
    analyze host address (Some (axeOptions args)) = Ok results /\
    r = text_result
          (JSON_stringify (formattedResults args address (now host) results))
          None /\
    log' = (log ++ session_log address (Some (axeOptions args)))%list.
Proof.
  intros Hrun Hok.
  destruct (url args) as [[|c s]|] eqn:Hu;
    try (unfold auditWebpage in Hrun; rewrite Hu in Hrun; discriminate).
  assert (Ha : String c s <> "") by discriminate.
  destruct (session_failure host (String c s) (Some (axeOptions args)))
    as [m|] eqn:Hf.
  - pose proof (auditWebpage_failure host args log _ m Hu Ha Hf) as H.
    rewrite Hrun in H. cbn in H. injection H as ->. discriminate Hok.
  - destruct (auditWebpage_success host args log _ Hu Ha Hf) as (res & Hres & H).
    rewrite Hrun in H. injection H as -> ->.
    exists (String c s), res. repeat split; auto.
Qed.

Lemma getSummary_succeeded host args log r log' :
  getSummary host args log = (Returned r, log') -> succeeded r ->
  exists address results,
    url args = Some address /\ address <> "" /\
    analyze host address None = Ok results /\
    r = text_result (JSON_stringify (summary address (now host) results)) None /\
    log' = (log ++ session_log address None)%list.
Proof.
  intros Hrun Hok.
  destruct (url args) as [[|c s]|] eqn:Hu;
    try (unfold getSummary in Hrun; rewrite Hu in Hrun; discriminate).
  assert (Ha : String c s <> "") by discriminate.
  destruct (session_failure host (String c s) None) as [m|] eqn:Hf.
  - pose proof (getSummary_failure host args log _ m Hu Ha Hf) as H.
    rewrite Hrun in H. cbn in H. injection H as ->. discriminate Hok.
  - destruct (getSummary_success host args log _ Hu Ha Hf) as (res & Hres & H).
    rewrite Hrun in H. injection H as -> ->.
    exists (String c s), res. repeat split; auto.
Qed.

(** ** Parameter validation *)

(** C2: when the parameter object has no [url], both operations (called
    directly or through the router) throw the protocol's invalid-parameters
    fault, and the log of external calls is left as it was: no browser
    session has been launched. *)
Theorem missing_url_is_invalid_params (host : Host) (args : Args)
    (log : list event) :
  url args = None ->
  auditWebpage host args log = (Thrown url_required, log) /\
  getSummary host args log = (Thrown url_required, log) /\
  callTool host "audit_webpage" args log = (Thrown url_required, log) /\
  callTool host "get_summary" args log = (Thrown url_required, log).
Proof.
  intros Hu. unfold callTool; cbn.
  unfold auditWebpage, getSummary. rewrite Hu. auto.
Qed.

Lemma missing_url_is_invalid_params_witness :
  auditWebpage (Sample.serving Sample.clean_page) Sample.no_url []
  = (Thrown url_required, []) /\
  getSummary (Sample.serving Sample.clean_page) Sample.no_url []
  = (Thrown url_required, []).
Proof.
  pose proof (missing_url_is_invalid_params
                (Sample.serving Sample.clean_page) Sample.no_url []
                eq_refl) as H.
  split; [exact (proj1 H) | exact (proj1 (proj2 H))].
Defined.

(** C10: an empty-string [url] is rejected exactly as an absent one: the
    same invalid-parameters fault, and no external call is made. *)
Theorem empty_url_is_invalid_params (host : Host) (args : Args)
    (log : list event) :
  url args = Some "" ->
  auditWebpage host args log = (Thrown url_required, log) /\
  getSummary host args log = (Thrown url_required, log) /\
  callTool host "audit_webpage" args log = (Thrown url_required, log) /\
  callTool host "get_summary" args log = (Thrown url_required, log).
Proof.
  intros Hu. unfold callTool; cbn.
  unfold auditWebpage, getSummary. rewrite Hu. auto.
Qed.

Lemma empty_url_is_invalid_params_witness :
  auditWebpage (Sample.serving Sample.clean_page) Sample.empty_url []
  = (Thrown url_required, []) /\
  getSummary (Sample.serving Sample.clean_page) Sample.empty_url []
  = (Thrown url_required, []).
Proof.
  pose proof (empty_url_is_invalid_params
                (Sample.serving Sample.clean_page) Sample.empty_url []
                eq_refl) as H.
  split; [exact (proj1 H) | exact (proj1 (proj2 H))].
Defined.

(** ** Operational failures *)

Lemma auditWebpage_returns host args log address :
  url args = Some address -> address <> "" ->
  exists r log', auditWebpage host args log = (Returned r, log').
Proof.
  intros Hu Ha.
  destruct (session_failure host address (Some (axeOptions args))) as [m|] eqn:Hf.
  - pose proof (auditWebpage_failure host args log _ m Hu Ha Hf) as H.
    destruct (auditWebpage host args log) as [o l]. cbn in H. subst o. eauto.
  - destruct (auditWebpage_success host args log _ Hu Ha Hf) as (res & _ & H).
    eauto.
Qed.

Lemma getSummary_returns host args log address :
  url args = Some address -> address <> "" ->
  exists r log', getSummary host args log = (Returned r, log').
Proof.
  intros Hu Ha.
  destruct (session_failure host address None) as [m|] eqn:Hf.
  - pose proof (getSummary_failure host args log _ m Hu Ha Hf) as H.
    destruct (getSummary host args log) as [o l]. cbn in H. subst o. eauto.
  - destruct (getSummary_success host args log _ Hu Ha Hf) as (res & _ & H).
    eauto.
Qed.

(** C3: with [url] present, neither operation ever throws; and whenever an
    external call of the session fails (browser launch, navigation with its
    30 second limit, rule-engine evaluation, or any call between them), the
    operation returns a response with the error flag set whose text is
    exactly the operation's prefix followed by that failure's message. *)
Theorem failures_become_error_results (host : Host) (args : Args)
    (log : list event) (address : string) :
  url args = Some address -> address <> "" ->
  (exists r log', auditWebpage host args log = (Returned r, log')) /\
  (exists r log', getSummary host args log = (Returned r, log')) /\
  (forall message,
      session_failure host address (Some (axeOptions args)) = Some message ->
      fst (auditWebpage host args log)
      = Returned {| content := [ {| type := "text";
                                    text := "Error auditing webpage: " ++ message |} ];
                    isError := Some true |}) /\
  (forall message,
      session_failure host address None = Some message ->
      fst (getSummary host args log)
      = Returned {| content := [ {| type := "text";
                                    text := "Error getting summary: " ++ message |} ];
                    isError := Some true |}).
Proof.
  intros Hu Ha. repeat split.
  - eapply auditWebpage_returns; eauto.
  - eapply getSummary_returns; eauto.
  - intros m Hf. apply (auditWebpage_failure host args log _ m Hu Ha Hf).
  - intros m Hf. apply (getSummary_failure host args log _ m Hu Ha Hf).
Qed.

Lemma failures_become_error_results_witness :
  fst (auditWebpage Sample.unreachable (Sample.request "http://10.0.0.1/") [])
  = Returned (error_result "Error auditing webpage: "
                           "Navigation timeout of 30000 ms exceeded") /\
  fst (getSummary Sample.unreachable (Sample.request "http://10.0.0.1/") [])
  = Returned (error_result "Error getting summary: "
                           "Navigation timeout of 30000 ms exceeded").
Proof.
  assert (Ha : "http://10.0.0.1/" <> "") by discriminate.
  pose proof (failures_become_error_results
                Sample.unreachable (Sample.request "http://10.0.0.1/") []
                "http://10.0.0.1/" eq_refl Ha) as (_ & _ & H1 & H2).
  split; [apply (H1 _ eq_refl) | apply (H2 _ eq_refl)].
Defined.

(** ** The browser session *)

Lemma close_called_spec (log : list event) :
  close_called log <-> existsb is_close log = true.
Proof.
  unfold close_called. rewrite existsb_exists. split.
  - intros [H | [m H]]; eexists; (split; [exact H | reflexivity]).
  - intros (e & Hin & He). destruct e as [[]|[] m]; try discriminate; eauto.
Qed.

(** On the path that reaches the end of the [try] block the session is
    closed, after the engine has run. *)
Lemma success_closes_browser host args r log' :
  auditWebpage host args [] = (Returned r, log') -> succeeded r ->
  launched log' /\ close_called log'.
Proof.
  intros Hrun Hok.
  destruct (auditWebpage_succeeded _ _ _ _ _ Hrun Hok)
    as (address & res & _ & _ & _ & _ & ->).
  split; [left; reflexivity | apply close_called_spec; reflexivity].
Qed.

(** Once the browser is up, a failure of any call made before
    [browser.close()] sends control to the [catch] block, which answers
    without closing the session. *)
Lemma failure_after_launch_leaves_browser_open host args address message :
  url args = Some address -> address <> "" ->
  launch host = Ok tt ->
  first_failure
    [failure (newPage host); failure (setViewport host);
     failure (goto host address);
     failure (analyze host address (Some (axeOptions args)))] = Some message ->
  let log' := snd (auditWebpage host args []) in
  launched log' /\ ~ close_called log'.
Proof.
  intros Hu Ha Hl. destruct (nonempty_address _ Ha) as (c & s & ->).
  unfold_handler. rewrite Hu, Hl.
  step_host host; cbn; try discriminate; intros _;
    (split; [left; reflexivity
            | rewrite close_called_spec; cbn; discriminate]).
Qed.

Lemma failure_after_launch_leaves_browser_open_summary host args address message :
  url args = Some address -> address <> "" ->
  launch host = Ok tt ->
  first_failure
    [failure (newPage host); failure (setViewport host);
     failure (goto host address);
     failure (analyze host address None)] = Some message ->
  let log' := snd (getSummary host args []) in
  launched log' /\ ~ close_called log'.
Proof.
  intros Hu Ha Hl. destruct (nonempty_address _ Ha) as (c & s & ->).
  unfold_handler. rewrite Hu, Hl.
  step_host host; cbn; try discriminate; intros _;
    (split; [left; reflexivity
            | rewrite close_called_spec; cbn; discriminate]).
Qed.

(** C1 (the code departs from it): on a host whose navigation times out,
    and on one whose rule engine throws, both operations launch a browser
    session and return without ever calling [browser.close()]. *)
Theorem browser_left_open_on_failure :
  let address := "http://10.0.0.1/" in
  let runs :=
    [auditWebpage Sample.unreachable (Sample.request address) [];
     getSummary Sample.unreachable (Sample.request address) [];
     auditWebpage Sample.engine_failing (Sample.request address) [];
     getSummary Sample.engine_failing (Sample.request address) []] in
  Forall (fun run =>
            (exists r, fst run = Returned r /\ isError r = Some true) /\
            launched (snd run) /\ ~ close_called (snd run)) runs.
Proof.
  cbv zeta.
  repeat constructor; try (eexists; split; reflexivity);
    rewrite close_called_spec; cbn; discriminate.
Qed.

(** ** The Formatted Report *)

Lemma Forall2_map_left {A B : Type} (P : B -> A -> Prop) (f : A -> B)
    (l : list A) :
  (forall a, In a l -> P (f a) a) -> Forall2 P (map f l) l.
Proof.
  induction l as [|a l IH]; intros H; cbn; constructor.
  - apply H. now left.
  - apply IH. intros b Hb. apply H. now right.
Qed.

Lemma formattedResults_violations args address timestamp results :
  get "violations" (formattedResults args address timestamp results)
  = Some (Arr (map (formattedViolation args) (violations results))).
Proof. reflexivity. Qed.

Lemma formattedViolation_nodes args violation :
  get "nodes" (formattedViolation args violation)
  = Some (Arr (map (formattedNode args) (nodes violation))).
Proof. reflexivity. Qed.

(** C6: a successful audit serialises a report whose [violations] array has
    one entry per raw violation, in order, and each entry's [nodes] array is
    as long as the raw violation's node list. *)
Theorem report_keeps_violation_and_node_counts (host : Host) (args : Args)
    (log log' : list event) (r : CallToolResult) :
  auditWebpage host args log = (Returned r, log') -> succeeded r ->
  exists address results report formatted,
    analyze host address (Some (axeOptions args)) = Ok results /\
    report = formattedResults args address (now host) results /\
    payload r = Some (JSON_stringify report) /\
    get "violations" report = Some (Arr formatted) /\
    List.length formatted = List.length (violations results) /\
    Forall2 (fun f v =>
               exists fnodes,
                 get "nodes" f = Some (Arr fnodes) /\
                 List.length fnodes = List.length (nodes v))
            formatted (violations results).
Proof.
  intros Hrun Hok.
  destruct (auditWebpage_succeeded _ _ _ _ _ Hrun Hok)
    as (address & res & _ & _ & Hres & -> & _).
  exists address, res. do 2 eexists.
  split; [exact Hres|]. split; [reflexivity|]. split; [reflexivity|].
  split; [apply formattedResults_violations|].
  split; [apply length_map|].
  apply Forall2_map_left. intros v _.
  eexists. split; [apply formattedViolation_nodes | apply length_map].
Qed.

Lemma report_keeps_violation_and_node_counts_witness :
  exists formatted,
    get "violations"
        (formattedResults (Sample.request "http://example.com/")
           "http://example.com/" (now (Sample.serving (Sample.page_with
              [Sample.finding "link-name" (impact_string "serious")])))
           (Sample.page_with
              [Sample.finding "link-name" (impact_string "serious")]))
    = Some (Arr formatted) /\
    List.length formatted = 1.
Proof.
  destruct (report_keeps_violation_and_node_counts
              (Sample.serving (Sample.page_with
                 [Sample.finding "link-name" (impact_string "serious")]))
              (Sample.request "http://example.com/") [] _ _
              eq_refl eq_refl)
    as (address & res & report & formatted & Hres & -> & _ & Hget & Hlen & _).
  injection Hres as <-.
  exists formatted. split; [exact Hget | exact Hlen].
Defined.

Lemma formattedNode_html args node :
  (includeHtml args = Some true ->
   get "html" (formattedNode args node) = Some (node_html node)) /\
  (includeHtml args <> Some true ->
   ~ In "html" (keys (formattedNode args node))).
Proof.
  unfold formattedNode. split.
  - intros ->. reflexivity.
  - intros Hn. destruct (includeHtml args) as [[|]|]; try congruence;
      cbn; intros [H|[H|[H|[]]]]; discriminate H.
Qed.

(** C7: in the report of a successful audit, when [includeHtml] is false or
    absent no formatted node has an [html] property; when it is true every
    formatted node has one, holding its raw node's markup as it came. *)
Theorem html_included_only_on_request (host : Host) (args : Args)
    (log log' : list event) (r : CallToolResult) :
  auditWebpage host args log = (Returned r, log') -> succeeded r ->
  exists address results report formatted,
    analyze host address (Some (axeOptions args)) = Ok results /\
    report = formattedResults args address (now host) results /\
    payload r = Some (JSON_stringify report) /\
    get "violations" report = Some (Arr formatted) /\
    Forall2 (fun f v =>
               exists fnodes,
                 get "nodes" f = Some (Arr fnodes) /\
                 Forall2 (fun fnode node =>
                            (includeHtml args = Some true ->
                             get "html" fnode = Some (node_html node)) /\
                            (includeHtml args <> Some true ->
                             ~ In "html" (keys fnode)))
                         fnodes (nodes v))
            formatted (violations results).
Proof.
  intros Hrun Hok.
  destruct (auditWebpage_succeeded _ _ _ _ _ Hrun Hok)
    as (address & res & _ & _ & Hres & -> & _).
  exists address, res. do 2 eexists.
  split; [exact Hres|]. split; [reflexivity|]. split; [reflexivity|].
  split; [apply formattedResults_violations|].
  apply Forall2_map_left. intros v _.
  eexists. split; [apply formattedViolation_nodes|].
  apply Forall2_map_left. intros n _. apply formattedNode_html.
Qed.

Lemma html_included_only_on_request_witness :
  exists r log',
    auditWebpage
      (Sample.serving (Sample.page_with
         [Sample.finding "link-name" (impact_string "serious")]))
      {| url := Some "http://example.com/"; includeHtml := Some true;
         tags := None |} [] = (Returned r, log') /\
    exists report formatted,
      payload r = Some (JSON_stringify report) /\
      get "violations" report = Some (Arr formatted).
Proof.
  do 2 eexists. split; [reflexivity|].
  destruct (html_included_only_on_request
              (Sample.serving (Sample.page_with
                 [Sample.finding "link-name" (impact_string "serious")]))
              {| url := Some "http://example.com/"; includeHtml := Some true;
                 tags := None |} [] _ _ eq_refl eq_refl)
    as (address & res & report & formatted & _ & _ & Hp & Hget & _).
  exists report, formatted. split; [exact Hp | exact Hget].
Defined.

(** C8 (as amended): the report of a successful audit has exactly six
    properties: the request's [url], the host's timestamp, the reshaped
    findings, and the numbers of passed, incomplete and inapplicable checks.
    Of the request only [url] is carried; [includeHtml] and [tags] are not. *)
Theorem report_carries_url_findings_and_counts (host : Host) (args : Args)
    (log log' : list event) (r : CallToolResult) :
  auditWebpage host args log = (Returned r, log') -> succeeded r ->
  exists address results report,
    url args = Some address /\
    analyze host address (Some (axeOptions args)) = Ok results /\
    payload r = Some (JSON_stringify report) /\
    keys report = ["url"; "timestamp"; "violations"; "passes"; "incomplete";
                   "inapplicable"] /\
    get "url" report = Some (Str address) /\
    get "timestamp" report = Some (Str (now host)) /\
    get "violations" report
    = Some (Arr (map (formattedViolation args) (violations results))) /\
    get "passes" report
    = Some (Num (Z.of_nat (List.length (passes results)))) /\
    get "incomplete" report
    = Some (Num (Z.of_nat (List.length (incomplete results)))) /\
    get "inapplicable" report
    = Some (Num (Z.of_nat (List.length (inapplicable results)))).
Proof.
  intros Hrun Hok.
  destruct (auditWebpage_succeeded _ _ _ _ _ Hrun Hok)
    as (address & res & Hu & _ & Hres & -> & _).
  exists address, res, (formattedResults args address (now host) res).
  repeat split; auto.
Qed.

Lemma report_carries_url_findings_and_counts_witness :
  exists report,
    payload (text_result
               (JSON_stringify
                  (formattedResults (Sample.request "http://example.com/")
                     "http://example.com/"
                     (now (Sample.serving Sample.clean_page))
                     Sample.clean_page)) None)
    = Some (JSON_stringify report) /\
    get "url" report = Some (Str "http://example.com/") /\
    get "passes" report = Some (Num 1).
Proof.
  destruct (report_carries_url_findings_and_counts
              (Sample.serving Sample.clean_page)
              (Sample.request "http://example.com/") [] _ _
              eq_refl eq_refl)
    as (address & res & report & Hu & Hres & Hp & _ & Hurl & _ & _ & Hpass & _).
  injection Hu as <-. injection Hres as <-.
  exists report. split; [exact Hp|]. split; [exact Hurl | exact Hpass].
Defined.

(** C8 (as stated) fails: two requests for the same page that differ in
    [includeHtml] and in [tags] receive the same successful response, whose
    report has no property for either field; the request cannot be read back
    from it. *)
Lemma report_does_not_echo_request :
  let host := Sample.serving Sample.clean_page in
  let first := {| url := Some "http://example.com/";
                  includeHtml := Some true; tags := Some ["wcag2a"] |} in
  let second := {| url := Some "http://example.com/";
                   includeHtml := Some false; tags := Some ["best-practice"] |} in
  first <> second /\
  fst (auditWebpage host first []) = fst (auditWebpage host second []) /\
  (exists r, fst (auditWebpage host first []) = Returned r /\ succeeded r /\
             payload r
             = Some (JSON_stringify
                       (formattedResults first "http://example.com/"
                                         (now host) Sample.clean_page))) /\
  keys (formattedResults first "http://example.com/" (now host) Sample.clean_page)
  = ["url"; "timestamp"; "violations"; "passes"; "incomplete"; "inapplicable"] /\
  get "includeHtml"
      (formattedResults first "http://example.com/" (now host) Sample.clean_page)
  = None /\
  get "tags"
      (formattedResults first "http://example.com/" (now host) Sample.clean_page)
  = None.
Proof.
  cbv zeta. split; [discriminate|]. split; [reflexivity|].
  split; [eexists; repeat split|]. repeat split.
Qed.

(** ** The Formatted Summary *)

Lemma getSummary_reads_url_only host (first second : Args) :
  url first = url second -> getSummary host first = getSummary host second.
Proof.
  intros H. unfold getSummary. rewrite H. reflexivity.
Qed.

Lemma summary_fields_but_timestamp address t1 t2 results k :
  k <> "timestamp" ->
  get k (summary address t1 results) = get k (summary address t2 results).
Proof.
  intros Hk. cbn.
  destruct (String.eqb k "url"); [reflexivity|].
  destruct (String.eqb_spec k "timestamp") as [->|_]; [congruence|].
  reflexivity.
Qed.

Lemma getSummary_calls_unfiltered host args log :
  exists calls,
    snd (getSummary host args log) = (log ++ calls)%list /\
    Forall unfiltered calls.
Proof.
  unfold_handler.
  destruct (url args) as [[|c s]|];
    try (exists []; cbn; rewrite app_nil_r; split; [reflexivity | constructor]).
  step_host host; cbn; repeat rewrite <- app_assoc; cbn;
    eexists; (split; [reflexivity|]); repeat constructor.
Qed.

(** C9: [getSummary] reads nothing of its request but [url].  Two requests
    with the same [url], differing at will in [tags] and [includeHtml],
    behave identically against the same browser and engine: the same
    external calls, every engine run without options (hence with no tag
    filter), the same fault or error response, and on success two summaries
    built from the same address and the same raw result, equal in every
    property except [timestamp]. *)
Theorem summary_ignores_tags_and_includeHtml (host : Host) (t1 t2 : string)
    (first second : Args) (log : list event) :
  url first = url second ->
  let run1 := getSummary (at_time host t1) first log in
  let run2 := getSummary (at_time host t2) second log in
  (t1 = t2 -> run1 = run2) /\
  (exists calls,
      snd run1 = (log ++ calls)%list /\ snd run2 = (log ++ calls)%list /\
      Forall unfiltered calls) /\
  match fst run1, fst run2 with
  | Thrown e1, Thrown e2 => e1 = e2
  | Returned r1, Returned r2 =>
      (r1 = r2 /\ isError r1 = Some true) \/
      (exists address results,
          analyze host address None = Ok results /\
          r1 = text_result (JSON_stringify (summary address t1 results)) None /\
          r2 = text_result (JSON_stringify (summary address t2 results)) None /\
          forall k, k <> "timestamp" ->
                    get k (summary address t1 results)
                    = get k (summary address t2 results))
  | _, _ => False
  end.
Proof.
  intros Hu. cbv zeta. split; [|split].
  - intros ->. now rewrite (getSummary_reads_url_only _ _ _ Hu).
  - destruct (getSummary_calls_unfiltered (at_time host t1) first log)
      as (calls & Hc & Hf).
    exists calls. split; [exact Hc|]. split; [|exact Hf].
    rewrite <- Hc. unfold getSummary. rewrite Hu.
    destruct (url second) as [[|c s]|]; try reflexivity.
    unfold try_catch, bind, await, ret; cbn.
    step_host host; reflexivity.
  - unfold getSummary. rewrite Hu.
    destruct (url second) as [[|c s]|]; try reflexivity.
    unfold try_catch, bind, await, ret; cbn.
    destruct (launch host) as [[]|?]; cbn; [|now left].
    destruct (newPage host) as [[]|?]; cbn; [|now left].
    destruct (setViewport host) as [[]|?]; cbn; [|now left].
    destruct (goto host (String c s)) as [[]|?]; cbn; [|now left].
    destruct (analyze host (String c s) None) as [res|?] eqn:Hres; cbn;
      [|now left].
    destruct (close host) as [[]|?]; cbn; [|now left].
    right. exists (String c s), res. repeat split; auto.
    intros k Hk. now apply summary_fields_but_timestamp.
Qed.

Lemma summary_ignores_tags_and_includeHtml_witness :
  getSummary (Sample.serving Sample.clean_page)
             {| url := Some "http://example.com/"; includeHtml := Some true;
                tags := Some ["wcag2a"] |} []
  = getSummary (Sample.serving Sample.clean_page)
               (Sample.request "http://example.com/") [].
Proof.
  exact (proj1 (summary_ignores_tags_and_includeHtml
                  (Sample.serving Sample.clean_page)
                  "2024-05-01T10:00:00.000Z" "2024-05-01T10:00:00.000Z"
                  {| url := Some "http://example.com/";
                     includeHtml := Some true; tags := Some ["wcag2a"] |}
                  (Sample.request "http://example.com/") [] eq_refl)
               eq_refl).
Defined.

(** *** Severity buckets *)

Lemma impact_in_one_bucket (i : ImpactValue) :
  ((if impact_is "critical" i then 1 else 0)
   + (if impact_is "serious" i then 1 else 0)
   + (if impact_is "moderate" i then 1 else 0)
   + (if impact_is "minor" i then 1 else 0)
   + (if recognized i then 0 else 1) = 1)%nat.
Proof.
  unfold recognized.
  destruct i as [| |s]; cbn; try reflexivity.
  destruct (String.eqb_spec s "critical") as [->|_]; [reflexivity|].
  destruct (String.eqb_spec s "serious") as [->|_]; [reflexivity|].
  destruct (String.eqb_spec s "moderate") as [->|_]; [reflexivity|].
  destruct (String.eqb s "minor"); reflexivity.
Qed.

Lemma length_filter_cons {A : Type} (p : A -> bool) (a : A) (l : list A) :
  List.length (filter p (a :: l))
  = ((if p a then 1 else 0) + List.length (filter p l))%nat.
Proof.
  cbn. destruct (p a); reflexivity.
Qed.

Lemma buckets_and_rest (vs : list Result) :
  (List.length (bucket "critical" vs) + List.length (bucket "serious" vs)
   + List.length (bucket "moderate" vs) + List.length (bucket "minor" vs)
   + List.length (filter (fun v => negb (recognized (impact v))) vs)
   = List.length vs)%nat.
Proof.
  unfold bucket. induction vs as [|v vs IH]; [reflexivity|].
  rewrite !length_filter_cons. cbn [List.length].
  pose proof (impact_in_one_bucket (impact v)) as H.
  destruct (recognized (impact v)); cbn [negb] in *; lia.
Qed.

Lemma no_unrecognized_iff (vs : list Result) :
  List.length (filter (fun v => negb (recognized (impact v))) vs) = 0%nat
  <-> Forall (fun v => recognized (impact v) = true) vs.
Proof.
  induction vs as [|v vs IH]; cbn.
  - split; auto.
  - destruct (recognized (impact v)) eqn:E; cbn.
    + rewrite IH. split; [intros H; constructor; auto | now inversion 1].
    + split; [discriminate | inversion 1; congruence].
Qed.

Lemma unrecognized_in_no_bucket (s : string) (v : Result) (before after : list Result) :
  In s ["critical"; "serious"; "moderate"; "minor"] ->
  recognized (impact v) = false ->
  bucket s (before ++ v :: after) = bucket s (before ++ after).
Proof.
  intros Hs Hv. unfold bucket. rewrite !filter_app. cbn.
  replace (impact_is s (impact v)) with false; [reflexivity|].
  unfold recognized in Hv. cbn in Hs.
  destruct Hs as [<-|[<-|[<-|[<-|[]]]]];
    destruct (impact_is "critical" (impact v)),
             (impact_is "serious" (impact v)),
             (impact_is "moderate" (impact v)),
             (impact_is "minor" (impact v)); cbn in Hv; congruence.
Qed.

(** C5: in the summary of any raw result, [totalIssues] is the number of
    violations, the four entries of [issuesBySeverity] count the violations
    whose severity is exactly "critical", "serious", "moderate" and "minor",
    their sum is at most [totalIssues], and it equals [totalIssues] exactly
    when every violation has one of those four severities.  A violation with
    any other severity, or none, adds one to [totalIssues] and nothing to
    any of the four counts. *)
Theorem severity_counts_bounded_by_total (address timestamp : string)
    (results : AxeResults) :
  let vs := violations results in
  let s := summary address timestamp results in
  exists critical serious moderate minor total : Z,
    get "totalIssues" s = Some (Num total) /\
    get "issuesBySeverity" s
    = Some (Obj [("critical", Num critical); ("serious", Num serious);
                 ("moderate", Num moderate); ("minor", Num minor)]) /\
    total = Z.of_nat (List.length vs) /\
    critical = Z.of_nat (List.length (bucket "critical" vs)) /\
    serious = Z.of_nat (List.length (bucket "serious" vs)) /\
    moderate = Z.of_nat (List.length (bucket "moderate" vs)) /\
    minor = Z.of_nat (List.length (bucket "minor" vs)) /\
    (critical + serious + moderate + minor <= total)%Z /\
    ((critical + serious + moderate + minor = total)%Z
     <-> Forall (fun v => recognized (impact v) = true) vs) /\
    (forall v before after,
        vs = (before ++ v :: after)%list ->
        recognized (impact v) = false ->
        total = (Z.of_nat (List.length (before ++ after)) + 1)%Z /\
        critical = Z.of_nat (List.length (bucket "critical" (before ++ after))) /\
        serious = Z.of_nat (List.length (bucket "serious" (before ++ after))) /\
        moderate = Z.of_nat (List.length (bucket "moderate" (before ++ after))) /\
        minor = Z.of_nat (List.length (bucket "minor" (before ++ after)))).
Proof.
  cbv zeta.
  exists (Z.of_nat (List.length (bucket "critical" (violations results)))),
         (Z.of_nat (List.length (bucket "serious" (violations results)))),
         (Z.of_nat (List.length (bucket "moderate" (violations results)))),
         (Z.of_nat (List.length (bucket "minor" (violations results)))),
         (Z.of_nat (List.length (violations results))).
  split; [reflexivity|]. split; [reflexivity|].
  do 5 (split; [reflexivity|]).
  pose proof (buckets_and_rest (violations results)) as Hsum.
  pose proof (no_unrecognized_iff (violations results)) as Hiff.
  split; [lia|]. split.
  - rewrite <- Hiff. lia.
  - intros v before after -> Hv.
    rewrite !(unrecognized_in_no_bucket _ v before after) by (cbn; auto).
    repeat split; auto.
    rewrite !length_app. cbn [List.length]. lia.
Qed.

(** ** Array.prototype.sort *)

Lemma midpoint_between (left right : nat) :
  (left < right)%nat ->
  (left <= left + Nat.div2 (right - left) < right)%nat.
Proof.
  intros H. pose proof (Nat.lt_div2 (right - left)) as Hd.
  assert (H0 : (0 < right - left)%nat) by lia. specialize (Hd H0).
  remember (Nat.div2 (right - left)) as d. lia.
Qed.

Section SortAnyComparator.

Context {A : Type} (cmp : A -> A -> option Z).

Lemma insert_at_length (work : list A) (pos : nat) (pivot : A) :
  List.length (insert_at work pos pivot) = S (List.length work).
Proof.
  unfold insert_at. rewrite length_app. cbn.
  rewrite <- (firstn_skipn pos work) at 3. rewrite length_app. lia.
Qed.

Lemma BinaryInsertionSort_length (rest run : list A) :
  List.length (BinaryInsertionSort cmp run rest)
  = (List.length run + List.length rest)%nat.
Proof.
  unfold BinaryInsertionSort. revert run.
  induction rest as [|x rest IH]; intros run; cbn; [lia|].
  rewrite IH. unfold binary_insert. rewrite insert_at_length. lia.
Qed.

Lemma CountAndMakeRun_length (l : list A) :
  (List.length (fst (CountAndMakeRun cmp l))
   + List.length (snd (CountAndMakeRun cmp l)) = List.length l)%nat.
Proof.
  destruct l as [|a [|b rest]]; try reflexivity.
  unfold CountAndMakeRun. cbv zeta.
  set (n := (2 + _)%nat). cbn [fst snd].
  assert (H : List.length (firstn n (a :: b :: rest))
              + List.length (skipn n (a :: b :: rest))
              = List.length (a :: b :: rest)).
  { rewrite <- length_app, firstn_skipn. reflexivity. }
  destruct (order_lt0 cmp b a); [rewrite length_rev|]; exact H.
Qed.

(** The binary search ends within [right - left] turns whatever the
    comparator answers: more fuel than that changes nothing, and the
    position found lies between the two bounds. *)
Lemma search_fuel_enough (work : list A) (pivot : A) :
  forall fuel fuel' left right,
    (right - left <= fuel)%nat -> (right - left <= fuel')%nat ->
    search cmp fuel work pivot left right
    = search cmp fuel' work pivot left right.
Proof.
  induction fuel as [|fuel IH]; intros [|fuel'] left right H H';
    cbn [search]; try reflexivity.
  - destruct (Nat.ltb_spec left right); [lia|reflexivity].
  - destruct (Nat.ltb_spec left right); [lia|reflexivity].
  - destruct (Nat.ltb_spec left right) as [Hlt|]; [|reflexivity].
    pose proof (midpoint_between left right Hlt) as Hmid.
    set (mid := (left + Nat.div2 (right - left))%nat) in *. clearbody mid.
    destruct (nth_error work mid); [|reflexivity].
    destruct (order_lt0 cmp pivot a); apply IH; lia.
Qed.

Lemma search_in_range (work : list A) (pivot : A) :
  forall fuel left right,
    (left <= right)%nat ->
    (left <= search cmp fuel work pivot left right <= right)%nat.
Proof.
  induction fuel as [|fuel IH]; intros left right H; cbn [search]; [lia|].
  destruct (Nat.ltb_spec left right) as [Hlt|]; [|lia].
  pose proof (midpoint_between left right Hlt) as Hmid.
  set (mid := (left + Nat.div2 (right - left))%nat) in *. clearbody mid.
  destruct (nth_error work mid); [|lia].
  destruct (order_lt0 cmp pivot a).
  - specialize (IH left mid). lia.
  - specialize (IH (mid + 1)%nat right). lia.
Qed.

(** Whatever the comparator answers, sorting keeps the number of
    elements. *)
Lemma Array_sort_length (l : list A) :
  List.length (Array_sort cmp l) = List.length l.
Proof.
  unfold Array_sort. destruct (Nat.ltb (List.length l) 2); [reflexivity|].
  pose proof (CountAndMakeRun_length l) as H.
  destruct (CountAndMakeRun cmp l) as [run rest]. cbn in H.
  rewrite BinaryInsertionSort_length. exact H.
Qed.

Lemma insert_at_Permutation (work : list A) (pos : nat) (pivot : A) :
  Permutation (insert_at work pos pivot) (pivot :: work).
Proof.
  unfold insert_at. symmetry.
  rewrite <- (firstn_skipn pos work) at 1. apply Permutation_middle.
Qed.

Lemma BinaryInsertionSort_Permutation (rest run : list A) :
  Permutation (BinaryInsertionSort cmp run rest) (run ++ rest).
Proof.
  unfold BinaryInsertionSort. revert run.
  induction rest as [|x rest IH]; intros run; cbn.
  - now rewrite app_nil_r.
  - rewrite IH. unfold binary_insert. rewrite insert_at_Permutation.
    apply Permutation_middle.
Qed.

(** Whatever the comparator answers, sorting only rearranges. *)
Lemma Array_sort_Permutation (l : list A) :
  Permutation (Array_sort cmp l) l.
Proof.
  unfold Array_sort. destruct (Nat.ltb (List.length l) 2); [reflexivity|].
  destruct l as [|a [|b rest]]; try reflexivity.
  unfold CountAndMakeRun. cbv zeta. set (n := (2 + _)%nat).
  rewrite BinaryInsertionSort_Permutation.
  transitivity (firstn n (a :: b :: rest) ++ skipn n (a :: b :: rest))%list;
    [|now rewrite firstn_skipn].
  apply Permutation_app_tail.
  destruct (order_lt0 cmp b a); [symmetry; apply Permutation_rev | reflexivity].
Qed.

End SortAnyComparator.

Lemma Forall_firstn {A : Type} (P : A -> Prop) (n : nat) (l : list A) :
  Forall P l -> Forall P (firstn n l).
Proof.
  intros H. revert n. induction H as [|x l Hx Hl IH]; intros [|n]; cbn;
    constructor; auto.
Qed.

Lemma Forall_skipn {A : Type} (P : A -> Prop) (n : nat) (l : list A) :
  Forall P l -> Forall P (skipn n l).
Proof.
  intros H. revert n. induction H as [|x l Hx Hl IH]; intros [|n]; cbn;
    auto.
Qed.

(** The sort consults the comparator on elements of the array only. *)
Section SortExt.

Context {A : Type} (P : A -> Prop) (c1 c2 : A -> A -> option Z).
Hypothesis agree :
  forall x y, P x -> P y -> order_lt0 c1 x y = order_lt0 c2 x y.

Lemma run_extent_ext (d : bool) (l : list A) :
  forall prev, P prev -> Forall P l ->
               run_extent c1 d prev l = run_extent c2 d prev l.
Proof.
  induction l as [|x l IH]; intros prev Hp Hl; cbn; [reflexivity|].
  inversion Hl as [|? ? Hx Hl']; subst.
  rewrite (agree x prev Hx Hp).
  destruct (if d then negb (order_lt0 c2 x prev) else order_lt0 c2 x prev);
    [reflexivity | f_equal; apply IH; assumption].
Qed.

Lemma CountAndMakeRun_ext (l : list A) :
  Forall P l -> CountAndMakeRun c1 l = CountAndMakeRun c2 l.
Proof.
  destruct l as [|a [|b rest]]; try reflexivity.
  intros H. inversion H as [|? ? Ha H']; subst.
  inversion H' as [|? ? Hb Hr]; subst.
  unfold CountAndMakeRun.
  rewrite (agree b a Hb Ha), (run_extent_ext _ rest b Hb Hr). reflexivity.
Qed.

Lemma search_ext (fuel : nat) (work : list A) (pivot : A) :
  Forall P work -> P pivot ->
  forall left right,
    search c1 fuel work pivot left right = search c2 fuel work pivot left right.
Proof.
  intros Hw Hp. induction fuel as [|fuel IH]; intros left right;
    cbn [search]; [reflexivity|].
  destruct (Nat.ltb left right); [|reflexivity].
  destruct (nth_error work (left + Nat.div2 (right - left))) as [x|] eqn:E;
    [|reflexivity].
  assert (Hx : P x).
  { rewrite Forall_forall in Hw. apply Hw. eapply nth_error_In; eauto. }
  rewrite (agree pivot x Hp Hx). destruct (order_lt0 c2 pivot x); apply IH.
Qed.

Lemma insert_at_Forall (work : list A) (pos : nat) (pivot : A) :
  Forall P work -> P pivot -> Forall P (insert_at work pos pivot).
Proof.
  intros Hw Hp. unfold insert_at. apply Forall_app. split.
  - apply Forall_firstn; assumption.
  - constructor; [assumption | apply Forall_skipn; assumption].
Qed.

Lemma BinaryInsertionSort_ext (rest : list A) :
  forall run, Forall P run -> Forall P rest ->
              BinaryInsertionSort c1 run rest = BinaryInsertionSort c2 run rest.
Proof.
  unfold BinaryInsertionSort.
  induction rest as [|x rest IH]; intros run Hrun Hrest; cbn; [reflexivity|].
  inversion Hrest as [|? ? Hx Hr]; subst.
  assert (E : binary_insert c1 run x = binary_insert c2 run x).
  { unfold binary_insert. rewrite search_ext by assumption. reflexivity. }
  rewrite E. apply IH; [|assumption].
  unfold binary_insert. apply insert_at_Forall; assumption.
Qed.

Lemma Array_sort_ext (l : list A) :
  Forall P l -> Array_sort c1 l = Array_sort c2 l.
Proof.
  intros Hl. unfold Array_sort.
  destruct (Nat.ltb (List.length l) 2); [reflexivity|].
  rewrite (CountAndMakeRun_ext l Hl).
  destruct l as [|a [|b rest]]; try reflexivity.
  unfold CountAndMakeRun. cbv zeta.
  apply BinaryInsertionSort_ext.
  - destruct (order_lt0 c2 b a);
      [apply Forall_rev|]; apply Forall_firstn; assumption.
  - apply Forall_skipn; assumption.
Qed.

End SortExt.

(** On a comparator that orders by a key, the sort is the stable
    arrangement by that key. *)
Section SortByKey.

Context {A : Type} (key : A -> Z) (cmp : A -> A -> option Z).
Hypothesis cmp_key : forall x y, order_lt0 cmp x y = (key x <? key y)%Z.

Lemma insert_by_split (x : A) (lo hi : list A) :
  Forall (fun y => (key y <= key x)%Z) lo ->
  Forall (fun y => (key x < key y)%Z) hi ->
  insert_by key x (lo ++ hi) = (lo ++ x :: hi)%list.
Proof.
  intros Hlo Hhi. induction Hlo as [|y lo Hy _ IH]; cbn.
  - destruct Hhi as [|z hi Hz _]; cbn; [reflexivity|].
    apply Z.ltb_lt in Hz. now rewrite Hz.
  - replace (key x <? key y)%Z with false by (symmetry; apply Z.ltb_ge; lia).
    now rewrite IH.
Qed.

Lemma sorted_split (x : A) (work : list A) :
  StronglySorted (key_le key) work ->
  exists lo hi,
    work = (lo ++ hi)%list /\
    Forall (fun y => (key y <= key x)%Z) lo /\
    Forall (fun y => (key x < key y)%Z) hi.
Proof.
  induction 1 as [|y work Hs IH Hy].
  - exists [], []. repeat split; constructor.
  - destruct (Z.ltb_spec (key x) (key y)) as [Hlt|Hge].
    + exists [], (y :: work). repeat split; constructor; [assumption|].
      eapply Forall_impl; [|exact Hy]. unfold key_le. cbn. intros; lia.
    + destruct IH as (lo & hi & -> & Hlo & Hhi).
      exists (y :: lo), hi. repeat split; [constructor|]; assumption.
Qed.

Lemma insert_by_Forall (P : A -> Prop) (x : A) (l : list A) :
  P x -> Forall P l -> Forall P (insert_by key x l).
Proof.
  intros Hx Hl. induction Hl as [|y l Hy Hl IH]; cbn.
  - constructor; [assumption | constructor].
  - destruct (key x <? key y)%Z; repeat constructor; assumption.
Qed.

Lemma insert_by_sorted (x : A) (work : list A) :
  StronglySorted (key_le key) work ->
  StronglySorted (key_le key) (insert_by key x work).
Proof.
  induction 1 as [|y work Hs IH Hy]; cbn.
  - repeat constructor.
  - destruct (Z.ltb_spec (key x) (key y)) as [Hlt|Hge].
    + constructor; [constructor; assumption|].
      constructor; [unfold key_le; lia|].
      eapply Forall_impl; [|exact Hy]. unfold key_le. cbn. intros; lia.
    + constructor; [assumption|].
      apply insert_by_Forall; [exact Hge | assumption].
Qed.

Lemma place_all_sorted (l work : list A) :
  StronglySorted (key_le key) work ->
  StronglySorted (key_le key) (fold_left (place key) l work).
Proof.
  revert work. induction l as [|x l IH]; intros work Hw; cbn; [assumption|].
  apply IH. unfold place. apply insert_by_sorted, Hw.
Qed.

Lemma sort_by_sorted (l : list A) :
  StronglySorted (key_le key) (sort_by key l).
Proof. apply place_all_sorted. constructor. Qed.

(** The binary search stops at the boundary between the elements the
    pivot does not precede and those it precedes. *)
Lemma search_boundary (pivot : A) (lo hi : list A) :
  Forall (fun y => order_lt0 cmp pivot y = false) lo ->
  Forall (fun y => order_lt0 cmp pivot y = true) hi ->
  forall fuel left right,
    (left <= List.length lo <= right)%nat ->
    (right <= List.length (lo ++ hi))%nat ->
    (right - left <= fuel)%nat ->
    search cmp fuel (lo ++ hi)%list pivot left right = List.length lo.
Proof.
  intros Hlo Hhi. induction fuel as [|fuel IH]; intros left right Hb Hr Hf;
    cbn [search]; [lia|].
  destruct (Nat.ltb_spec left right) as [Hlt|Hge]; [|lia].
  pose proof (midpoint_between left right Hlt) as Hmid.
  set (mid := (left + Nat.div2 (right - left))%nat) in *. clearbody mid.
  rewrite length_app in Hr.
  destruct (Nat.lt_ge_cases mid (List.length lo)) as [Hin|Hout].
  - rewrite nth_error_app1 by assumption.
    destruct (nth_error lo mid) as [x|] eqn:E;
      [|apply nth_error_None in E; lia].
    rewrite Forall_forall in Hlo.
    rewrite (Hlo x (nth_error_In _ _ E)).
    apply IH; [lia | rewrite length_app; lia | lia].
  - rewrite nth_error_app2 by assumption.
    destruct (nth_error hi (mid - List.length lo)) as [x|] eqn:E;
      [|apply nth_error_None in E; lia].
    rewrite Forall_forall in Hhi.
    rewrite (Hhi x (nth_error_In _ _ E)).
    apply IH; [lia | rewrite length_app; lia | lia].
Qed.

Lemma insert_at_boundary (x : A) (lo hi : list A) :
  insert_at (lo ++ hi) (List.length lo) x = (lo ++ x :: hi)%list.
Proof.
  unfold insert_at.
  rewrite firstn_app, skipn_app, Nat.sub_diag, firstn_all, skipn_all.
  cbn. now rewrite app_nil_r.
Qed.

Lemma binary_insert_sorted (work : list A) (x : A) :
  StronglySorted (key_le key) work ->
  binary_insert cmp work x = insert_by key x work.
Proof.
  intros Hs. destruct (sorted_split x work Hs) as (lo & hi & -> & Hlo & Hhi).
  unfold binary_insert.
  rewrite (search_boundary x lo hi).
  - rewrite insert_at_boundary. symmetry. now apply insert_by_split.
  - eapply Forall_impl; [|exact Hlo]. cbn. intros y Hy.
    rewrite cmp_key. apply Z.ltb_ge. exact Hy.
  - eapply Forall_impl; [|exact Hhi]. cbn. intros y Hy.
    rewrite cmp_key. apply Z.ltb_lt. exact Hy.
  - rewrite length_app. lia.
  - lia.
  - lia.
Qed.

Lemma BinaryInsertionSort_sorted (rest run : list A) :
  StronglySorted (key_le key) run ->
  BinaryInsertionSort cmp run rest = fold_left (place key) rest run.
Proof.
  unfold BinaryInsertionSort. revert run.
  induction rest as [|x rest IH]; intros run Hs; cbn; [reflexivity|].
  rewrite binary_insert_sorted by assumption.
  apply IH, insert_by_sorted, Hs.
Qed.

(** A run that never steps down is already in place. *)
Lemma ascending_run_placed (l : list A) :
  forall prev placed,
    Forall (fun a => (key a <= key prev)%Z) placed ->
    fold_left (place key) (firstn (run_extent cmp false prev l) l)
              (placed ++ [prev])%list
    = (placed ++ prev :: firstn (run_extent cmp false prev l) l)%list.
Proof.
  induction l as [|x l IH]; intros prev placed Hp; cbn [run_extent];
    [reflexivity|].
  rewrite cmp_key. destruct (Z.ltb_spec (key x) (key prev)) as [Hlt|Hge];
    [reflexivity|].
  cbn [firstn fold_left]. unfold place at 2.
  rewrite <- (app_nil_r (placed ++ [prev])) at 1.
  rewrite insert_by_split.
  - rewrite IH.
    + now rewrite <- app_assoc.
    + apply Forall_app. split.
      * eapply Forall_impl; [|exact Hp]. cbn. intros; lia.
      * repeat constructor. exact Hge.
  - apply Forall_app. split.
    + eapply Forall_impl; [|exact Hp]. cbn. intros; lia.
    + repeat constructor. exact Hge.
  - constructor.
Qed.

(** A run that steps down strictly is put in place by reversing it. *)
Lemma descending_run_placed (l : list A) :
  forall prev placed,
    fold_left (place key) (firstn (run_extent cmp true prev l) l) (prev :: placed)
    = (rev (firstn (run_extent cmp true prev l) l) ++ prev :: placed)%list.
Proof.
  induction l as [|x l IH]; intros prev placed; cbn [run_extent];
    [reflexivity|].
  rewrite cmp_key. destruct (Z.ltb_spec (key x) (key prev)) as [Hlt|Hge];
    cbn [negb]; [|reflexivity].
  cbn [firstn fold_left rev]. unfold place at 2. cbn [insert_by].
  apply Z.ltb_lt in Hlt. rewrite Hlt.
  rewrite IH. now rewrite <- app_assoc.
Qed.

Theorem Array_sort_by_key (l : list A) :
  Array_sort cmp l = sort_by key l.
Proof.
  destruct l as [|hi [|lo rest]]; try reflexivity.
  unfold Array_sort. cbn [List.length Nat.ltb Nat.leb].
  unfold CountAndMakeRun. cbv zeta.
  set (d := order_lt0 cmp lo hi).
  set (e := run_extent cmp d lo rest).
  change (firstn (2 + e) (hi :: lo :: rest)) with (hi :: lo :: firstn e rest).
  change (skipn (2 + e) (hi :: lo :: rest)) with (skipn e rest).
  assert (Hrun : (if d then rev (hi :: lo :: firstn e rest)
                  else hi :: lo :: firstn e rest)
                 = sort_by key (hi :: lo :: firstn e rest)).
  { change (sort_by key (hi :: lo :: firstn e rest))
      with (fold_left (place key) (firstn e rest) (insert_by key lo [hi])).
    cbn [insert_by]. subst e d. rewrite !cmp_key.
    destruct (Z.ltb_spec (key lo) (key hi)) as [Hlt|Hge]; cbv iota.
    - rewrite descending_run_placed. cbn [rev].
      now rewrite <- !app_assoc.
    - change [hi; lo] with ([hi] ++ [lo])%list.
      rewrite (ascending_run_placed rest lo [hi]); [reflexivity|].
      repeat constructor. exact Hge. }
  rewrite Hrun, BinaryInsertionSort_sorted by apply sort_by_sorted.
  unfold sort_by. rewrite <- fold_left_app.
  change (hi :: lo :: firstn e rest)%list
    with ((hi :: lo :: nil) ++ firstn e rest)%list.
  rewrite <- app_assoc, firstn_skipn. reflexivity.
Qed.

End SortByKey.

(** ** [topIssues] *)

Lemma recognized_cases (i : ImpactValue) :
  recognized i = true ->
  i = impact_string "critical" \/ i = impact_string "serious" \/
  i = impact_string "moderate" \/ i = impact_string "minor".
Proof.
  unfold recognized. destruct i as [| |s]; cbn; try discriminate.
  rewrite !orb_true_iff, !String.eqb_eq. intuition (subst; auto).
Qed.

Lemma recognized_rank (v : Result) :
  recognized (impact v) = true ->
  impactRank v = Some (rank_key v) /\ (0 <= rank_key v <= 3)%Z.
Proof.
  intros H. unfold rank_key, impactRank.
  destruct (recognized_cases _ H) as [E|[E|[E|E]]]; rewrite E; cbn;
    (split; [reflexivity | lia]).
Qed.

Lemma compareImpact_on_recognized (x y : Result) :
  recognized (impact x) = true -> recognized (impact y) = true ->
  order_lt0 compareImpact x y
  = order_lt0 (fun a b => Some (rank_key a - rank_key b)%Z) x y.
Proof.
  intros Hx Hy. unfold order_lt0, SortCompare, compareImpact.
  destruct (recognized_rank x Hx) as [-> _].
  destruct (recognized_rank y Hy) as [-> _]. reflexivity.
Qed.

Lemma Array_sort_recognized (vs : list Result) :
  Forall (fun v => recognized (impact v) = true) vs ->
  Array_sort compareImpact vs = sort_by rank_key vs.
Proof.
  intros H.
  rewrite (Array_sort_ext _ _ _ compareImpact_on_recognized vs H).
  apply Array_sort_by_key. intros x y. unfold order_lt0, SortCompare.
  destruct (Z.ltb_spec (rank_key x - rank_key y) 0),
           (Z.ltb_spec (rank_key x) (rank_key y)); auto; lia.
Qed.

Lemma bucket_snoc (s : string) (vs : list Result) (v : Result) :
  bucket s (vs ++ [v])
  = (bucket s vs ++ (if impact_is s (impact v) then [v] else []))%list.
Proof.
  unfold bucket. rewrite filter_app. cbn.
  destruct (impact_is s (impact v)); reflexivity.
Qed.

Lemma bucket_rank (s : string) (r : Z) (vs : list Result) :
  lookup s impactOrder = Some r ->
  Forall (fun v => rank_key v = r) (bucket s vs).
Proof.
  intros Hs. unfold bucket. apply Forall_forall. intros v Hv.
  apply filter_In in Hv. destruct Hv as [_ Hv].
  unfold rank_key, impactRank.
  destruct (impact v) as [| |s']; cbn in Hv; try discriminate.
  apply String.eqb_eq in Hv. subst s'. cbn [impact_key]. now rewrite Hs.
Qed.

Ltac bucket_bounds :=
  repeat (apply Forall_app; split);
  try (eapply Forall_impl;
       [ | apply (bucket_rank "critical" 0%Z); reflexivity ];
       cbn; intros; lia);
  try (eapply Forall_impl;
       [ | apply (bucket_rank "serious" 1%Z); reflexivity ];
       cbn; intros; lia);
  try (eapply Forall_impl;
       [ | apply (bucket_rank "moderate" 2%Z); reflexivity ];
       cbn; intros; lia);
  try (eapply Forall_impl;
       [ | apply (bucket_rank "minor" 3%Z); reflexivity ];
       cbn; intros; lia).

(** With recognized severities only, the stable arrangement by rank is the
    four severity buckets one after the other, each in the engine's order. *)
Lemma sort_by_rank_buckets (vs : list Result) :
  Forall (fun v => recognized (impact v) = true) vs ->
  sort_by rank_key vs
  = (bucket "critical" vs ++ bucket "serious" vs
     ++ bucket "moderate" vs ++ bucket "minor" vs)%list.
Proof.
  induction vs as [|v vs IH] using rev_ind; intros H; [reflexivity|].
  apply Forall_app in H. destruct H as [Hvs Hv].
  inversion Hv as [|? ? Hrec _]; subst.
  unfold sort_by. rewrite fold_left_app. cbn [fold_left]. unfold place at 1.
  fold (sort_by rank_key vs). rewrite (IH Hvs). rewrite !bucket_snoc.
  set (b0 := bucket "critical" vs). set (b1 := bucket "serious" vs).
  set (b2 := bucket "moderate" vs). set (b3 := bucket "minor" vs).
  destruct (recognized_cases _ Hrec) as [E|[E|[E|E]]]; rewrite E;
    cbn [impact_is String.eqb Ascii.eqb Bool.eqb andb].
  - rewrite !app_nil_r.
    rewrite (insert_by_split rank_key v b0 (b1 ++ b2 ++ b3)).
    + now rewrite <- app_assoc.
    + subst b0. unfold rank_key at 2, impactRank. rewrite E. cbn.
      bucket_bounds.
    + subst b1 b2 b3. unfold rank_key at 1, impactRank. rewrite E. cbn.
      bucket_bounds.
  - rewrite !app_nil_r.
    rewrite (app_assoc b0 b1), (insert_by_split rank_key v (b0 ++ b1) (b2 ++ b3)).
    + now rewrite <- !app_assoc.
    + subst b0 b1. unfold rank_key at 2, impactRank. rewrite E. cbn.
      bucket_bounds.
    + subst b2 b3. unfold rank_key at 1, impactRank. rewrite E. cbn.
      bucket_bounds.
  - rewrite !app_nil_r.
    rewrite (app_assoc b1 b2), (app_assoc b0 (b1 ++ b2)),
      (insert_by_split rank_key v (b0 ++ b1 ++ b2) b3).
    + now rewrite <- !app_assoc.
    + subst b0 b1 b2. unfold rank_key at 2, impactRank. rewrite E. cbn.
      bucket_bounds.
    + subst b3. unfold rank_key at 1, impactRank. rewrite E. cbn.
      bucket_bounds.
  - rewrite !app_nil_r.
    rewrite (app_assoc b2 b3), (app_assoc b1 (b2 ++ b3)),
      (app_assoc b0 (b1 ++ b2 ++ b3)).
    rewrite <- (app_nil_r ((b0 ++ b1 ++ b2 ++ b3))) at 1.
    rewrite (insert_by_split rank_key v (b0 ++ b1 ++ b2 ++ b3) []).
    + now rewrite <- !app_assoc.
    + subst b0 b1 b2 b3. unfold rank_key at 2, impactRank. rewrite E. cbn.
      bucket_bounds.
    + constructor.
Qed.

Lemma topIssues_length (vs : list Result) :
  List.length (topIssues vs) = Nat.min 5 (List.length vs).
Proof.
  unfold topIssues. now rewrite length_map, length_firstn, Array_sort_length.
Qed.

Lemma issue_rank_topIssue (v : Result) :
  issue_rank (topIssue v) = impactRank v.
Proof.
  unfold issue_rank, impactRank. cbn. destruct (impact v); reflexivity.
Qed.

Lemma issue_has_severity_topIssue (s : string) (v : Result) :
  issue_has_severity s (topIssue v) = impact_is s (impact v).
Proof.
  unfold issue_has_severity. cbn. destruct (impact v); reflexivity.
Qed.

Lemma StronglySorted_firstn {A : Type} (R : A -> A -> Prop) (n : nat)
    (l : list A) :
  StronglySorted R l -> StronglySorted R (firstn n l).
Proof.
  intros H. revert n. induction H as [|a l Hs IH Ha]; intros [|n]; cbn;
    constructor; auto using Forall_firstn.
Qed.

Lemma StronglySorted_nth_error {A : Type} (R : A -> A -> Prop) (l : list A) :
  StronglySorted R l ->
  forall i j a b,
    (i < j)%nat -> nth_error l i = Some a -> nth_error l j = Some b -> R a b.
Proof.
  induction 1 as [|x l Hs IH Hx]; intros i j a b Hij Hi Hj.
  - destruct i; discriminate.
  - destruct j as [|j]; [lia|]. cbn in Hj. destruct i as [|i]; cbn in Hi.
    + injection Hi as <-. rewrite Forall_forall in Hx.
      apply Hx. eapply nth_error_In; eauto.
    + apply (IH i j); auto; lia.
Qed.

Lemma rank_nondecreasing_sorted (l : list Result) :
  StronglySorted (key_le rank_key) l -> rank_nondecreasing (map topIssue l).
Proof.
  intros Hs i j x y rx ry Hij Hi Hj Hx Hy.
  rewrite nth_error_map in Hi, Hj.
  destruct (nth_error l i) as [a|] eqn:Ea; [|discriminate].
  destruct (nth_error l j) as [b|] eqn:Eb; [|discriminate].
  injection Hi as <-. injection Hj as <-.
  rewrite issue_rank_topIssue in Hx, Hy.
  pose proof (StronglySorted_nth_error _ _ Hs i j a b Hij Ea Eb) as Hle.
  unfold key_le, rank_key in Hle. now rewrite Hx, Hy in Hle.
Qed.

Lemma filter_map_swap {A B : Type} (p : B -> bool) (f : A -> B) (l : list A) :
  filter p (map f l) = map f (filter (fun a => p (f a)) l).
Proof.
  induction l as [|a l IH]; cbn; [reflexivity|].
  destruct (p (f a)); cbn; now rewrite IH.
Qed.

Lemma filter_firstn_prefix {A : Type} (p : A -> bool) (n : nat) (l : list A) :
  exists k, filter p (firstn n l) = firstn k (filter p l).
Proof.
  revert n. induction l as [|a l IH]; intros [|n]; cbn;
    try (exists 0%nat; reflexivity).
  destruct (IH n) as [k Hk]. destruct (p a).
  - exists (S k). cbn. now rewrite Hk.
  - exists k. exact Hk.
Qed.

Lemma bucket_idempotent (s : string) (vs : list Result) :
  bucket s (bucket s vs) = bucket s vs.
Proof.
  unfold bucket. induction vs as [|v vs IH]; cbn; [reflexivity|].
  destruct (impact_is s (impact v)) eqn:E; cbn; rewrite ?E, IH; reflexivity.
Qed.

Lemma bucket_disjoint (s s' : string) (vs : list Result) :
  s <> s' -> bucket s (bucket s' vs) = [].
Proof.
  intros Hne. unfold bucket. induction vs as [|v vs IH]; cbn; [reflexivity|].
  destruct (impact v) as [| |s0] eqn:E; cbn; try exact IH.
  destruct (String.eqb_spec s0 s') as [->|_]; cbn; [|exact IH].
  rewrite E. cbn.
  destruct (String.eqb_spec s' s) as [->|_]; [congruence | exact IH].
Qed.

Lemma bucket_app (s : string) (l1 l2 : list Result) :
  bucket s (l1 ++ l2) = (bucket s l1 ++ bucket s l2)%list.
Proof. apply filter_app. Qed.

Lemma bucket_of_buckets (s : string) (vs : list Result) :
  In s severities ->
  bucket s (bucket "critical" vs ++ bucket "serious" vs
            ++ bucket "moderate" vs ++ bucket "minor" vs)
  = bucket s vs.
Proof.
  intros Hs. rewrite !bucket_app.
  cbn in Hs. destruct Hs as [<-|[<-|[<-|[<-|[]]]]];
    rewrite bucket_idempotent, !bucket_disjoint by discriminate;
    cbn; now rewrite ?app_nil_r.
Qed.

Lemma Forall_filter {A : Type} (P : A -> Prop) (p : A -> bool) (l : list A) :
  Forall P l -> Forall P (filter p l).
Proof.
  induction 1 as [|a l Ha Hl IH]; cbn; [constructor|].
  destruct (p a); [constructor|]; assumption.
Qed.

(** The closed form of [topIssues] on recognized severities. *)
Lemma topIssues_recognized (vs : list Result) :
  Forall (fun v => recognized (impact v) = true) vs ->
  topIssues vs
  = map topIssue
        (firstn 5 (bucket "critical" vs ++ bucket "serious" vs
                   ++ bucket "moderate" vs ++ bucket "minor" vs)).
Proof.
  intros H. unfold topIssues.
  now rewrite (Array_sort_recognized vs H), (sort_by_rank_buckets vs H).
Qed.

(** C4 (as amended): [topIssues] always has min(5, totalIssues) entries.
    When every violation has one of the four recognized severities, every
    entry has a rank, the ranks never decrease along the sequence
    (critical 0, serious 1, moderate 2, minor 3), and the entries of each
    severity are the first ones of that severity in the engine's order. *)
Theorem topIssues_sorted_for_recognized_severities (address timestamp : string)
    (results : AxeResults) :
  let vs := violations results in
  let s := summary address timestamp results in
  get "totalIssues" s = Some (Num (Z.of_nat (List.length vs))) /\
  get "topIssues" s = Some (Arr (topIssues vs)) /\
  List.length (topIssues vs) = Nat.min 5 (List.length vs) /\
  (Forall (fun v => recognized (impact v) = true) vs ->
   Forall (fun issue => exists r, issue_rank issue = Some r) (topIssues vs) /\
   rank_nondecreasing (topIssues vs) /\
   engine_order_kept vs (topIssues vs)).
Proof.
  cbv zeta. split; [reflexivity|]. split; [reflexivity|].
  split; [apply topIssues_length|].
  intros H. set (vs := violations results) in *. split; [|split].
  - rewrite (topIssues_recognized vs H).
    apply Forall_map, Forall_firstn.
    repeat (apply Forall_app; split);
      (eapply Forall_impl; [|apply Forall_filter; exact H]);
      intros v Hv; cbv beta in *; rewrite issue_rank_topIssue;
      destruct (recognized_rank v Hv) as [-> _]; eauto.
  - unfold topIssues. rewrite (Array_sort_recognized vs H).
    apply rank_nondecreasing_sorted, StronglySorted_firstn.
    apply sort_by_sorted.
  - intros sev Hsev. rewrite (topIssues_recognized vs H).
    rewrite filter_map_swap.
    rewrite (filter_ext _ (fun v => impact_is sev (impact v)))
      by (intros v; apply issue_has_severity_topIssue).
    destruct (filter_firstn_prefix
                (fun v => impact_is sev (impact v)) 5
                (bucket "critical" vs ++ bucket "serious" vs
                 ++ bucket "moderate" vs ++ bucket "minor" vs)) as [k Hk].
    exists k. rewrite Hk.
    change (filter (fun v => impact_is sev (impact v)))
      with (bucket sev).
    rewrite (bucket_of_buckets sev vs Hsev). now rewrite firstn_map.
Qed.

Lemma topIssues_sorted_for_recognized_severities_witness :
  rank_nondecreasing
    (topIssues [Sample.finding "color-contrast" (impact_string "minor");
                Sample.finding "image-alt" (impact_string "critical");
                Sample.finding "label" (impact_string "critical")]) /\
  List.length
    (topIssues [Sample.finding "color-contrast" (impact_string "minor");
                Sample.finding "image-alt" (impact_string "critical");
                Sample.finding "label" (impact_string "critical")]) = 3%nat.
Proof.
  destruct (topIssues_sorted_for_recognized_severities
              "http://example.com/" "2024-05-01T10:00:00.000Z"
              (Sample.page_with
                 [Sample.finding "color-contrast" (impact_string "minor");
                  Sample.finding "image-alt" (impact_string "critical");
                  Sample.finding "label" (impact_string "critical")]))
    as (_ & _ & Hlen & Hsorted).
  split; [|exact Hlen].
  apply Hsorted. repeat constructor.
Defined.

(** C4 (as stated) fails: when the engine reports a minor finding, then one
    without a severity, then a critical one, the comparator answers NaN for
    every pair that involves the middle finding, the sort leaves the array
    as it is, and [topIssues] lists the minor finding before the critical
    one. *)
Lemma topIssues_unordered_with_unrecognized_severity :
  let vs := [Sample.finding "color-contrast" (impact_string "minor");
             Sample.finding "custom-rule" impact_undefined;
             Sample.finding "image-alt" (impact_string "critical")] in
  get "topIssues"
      (summary "http://example.com/" "2024-05-01T10:00:00.000Z"
               (Sample.page_with vs))
  = Some (Arr (topIssues vs)) /\
  compareImpact (Sample.finding "custom-rule" impact_undefined)
                (Sample.finding "color-contrast" (impact_string "minor")) = None /\
  compareImpact (Sample.finding "image-alt" (impact_string "critical"))
                (Sample.finding "custom-rule" impact_undefined) = None /\
  topIssues vs = map topIssue vs /\
  map issue_rank (topIssues vs) = [Some 3%Z; None; Some 0%Z] /\
  ~ rank_nondecreasing (topIssues vs).
Proof.
  cbv zeta. do 5 (split; [reflexivity|]).
  intros H.
  specialize (H 0%nat 2%nat _ _ 3%Z 0%Z (Nat.lt_0_succ 1)
                eq_refl eq_refl eq_refl eq_refl).
  lia.
Qed.

(** * Further properties of the handlers *)

(** ** The router and tool discovery *)

Lemma auditWebpage_fault host args log e log' :
  auditWebpage host args log = (Thrown e, log') ->
  e = url_required /\ log' = log /\ (url args = None \/ url args = Some "").
Proof.
  intros H. destruct (url args) as [[|c s]|] eqn:Hu.
  - unfold auditWebpage in H. rewrite Hu in H. injection H as <- <-. auto.
  - assert (Ha : String c s <> "") by discriminate.
    destruct (auditWebpage_returns host args log _ Hu Ha) as (r & l & Hr).
    rewrite Hr in H. discriminate.
  - unfold auditWebpage in H. rewrite Hu in H. injection H as <- <-. auto.
Qed.

Lemma getSummary_fault host args log e log' :
  getSummary host args log = (Thrown e, log') ->
  e = url_required /\ log' = log /\ (url args = None \/ url args = Some "").
Proof.
  intros H. destruct (url args) as [[|c s]|] eqn:Hu.
  - unfold getSummary in H. rewrite Hu in H. injection H as <- <-. auto.
  - assert (Ha : String c s <> "") by discriminate.
    destruct (getSummary_returns host args log _ Hu Ha) as (r & l & Hr).
    rewrite Hr in H. discriminate.
  - unfold getSummary in H. rewrite Hu in H. injection H as <- <-. auto.
Qed.

Lemma tool_names_listed : tool_names = ["audit_webpage"; "get_summary"].
Proof. reflexivity. Qed.

Lemma listed_name_cases (name : string) :
  In name tool_names <-> name = "audit_webpage" \/ name = "get_summary".
Proof.
  rewrite tool_names_listed. cbn. intuition congruence.
Qed.

(** X1: the router answers "method not found" exactly for the names that
    tool discovery does not advertise; the fault carries the text
    "Unknown tool: " followed by the name, and nothing has been called. *)
Theorem unknown_tool_iff_not_listed (host : Host) (name : string) (args : Args)
    (log : list event) :
  callTool host name args log
  = (Thrown (McpError MethodNotFound ("Unknown tool: " ++ name)), log)
  <-> ~ In name tool_names.
Proof.
  rewrite listed_name_cases. unfold callTool. split.
  - intros H [->| ->]; cbn in H.
    + apply auditWebpage_fault in H. destruct H as [H _]. discriminate H.
    + apply getSummary_fault in H. destruct H as [H _]. discriminate H.
  - intros Hn.
    destruct (String.eqb_spec name "audit_webpage") as [->|_]; [tauto|].
    destruct (String.eqb_spec name "get_summary") as [->|_]; [tauto|].
    reflexivity.
Qed.





(** ** Optional parameters of [auditWebpage] *)

Lemma auditWebpage_same_report host (first second : Args) :
  url first = url second -> tags first = tags second ->
  (forall address timestamp results,
      formattedResults first address timestamp results
      = formattedResults second address timestamp results) ->
  forall log, auditWebpage host first log = auditWebpage host second log.
Proof.
  intros Hu Ht Hr log. unfold auditWebpage, axeOptions.
  rewrite Hu, Ht.
  destruct (url second) as [[|c s]|]; [reflexivity| |reflexivity].
  unfold try_catch, bind, await, ret.
  step_host host; try reflexivity. now rewrite Hr.
Qed.

(** X4: the schema of [audit_webpage] declares a default for [includeHtml],
    and the handler honours it: a request without [includeHtml] is answered
    exactly as the same request with the declared default. *)
Theorem includeHtml_absent_means_declared_default (host : Host) (args : Args)
    (log : list event) :
  exists tool flag,
    In tool listed_tools /\ tool_name tool = Some "audit_webpage" /\
    declared_default tool "includeHtml" = Some (Bool flag) /\
    auditWebpage host (with_includeHtml args None) log
    = auditWebpage host (with_includeHtml args (Some flag)) log.
Proof.
  eexists _, false. split; [left; reflexivity|].
  split; [reflexivity|]. split; [reflexivity|].
  apply auditWebpage_same_report; reflexivity.
Qed.

Lemma auditWebpage_calls host args log :
  exists calls,
    snd (auditWebpage host args log) = (log ++ calls)%list /\
    Forall (fun e => forall options,
                engine_options e = Some options ->
                options = Some (axeOptions args)) calls.
Proof.
  unfold_handler.
  destruct (url args) as [[|c s]|];
    try (exists []; cbn; rewrite app_nil_r; split; [reflexivity | constructor]).
  step_host host; cbn; repeat rewrite <- app_assoc; cbn;
    eexists; (split; [reflexivity|]);
    repeat constructor; cbn; congruence.
Qed.

(** X5: [tags] reaches the engine untouched or not at all.  An empty list is
    treated as an absent one, and the engine then runs with empty options;
    a non-empty list becomes a [runOnly] filter of type "tag" holding the
    same tags in the same order, and no engine run of the request is made
    with other options. *)
Theorem tags_filter_the_engine_run (host : Host) (args : Args)
    (log : list event) :
  auditWebpage host (with_tags args (Some [])) log
  = auditWebpage host (with_tags args None) log /\
  exists calls,
    snd (auditWebpage host args log) = (log ++ calls)%list /\
    Forall (fun e =>
              forall options,
                engine_options e = Some options ->
                match tags args with
                | Some (first :: others) =>
                    options
                    = Some (Obj [("runOnly",
                                  Obj [("type", Str "tag");
                                       ("values",
                                        Arr (map Str (first :: others)))])])
                | _ => options = Some (Obj [])
                end) calls.
Proof.
  split.
  - unfold auditWebpage, with_tags, axeOptions, formattedResults,
      formattedViolation, formattedNode. cbn. reflexivity.
  - destruct (auditWebpage_calls host args log) as (calls & Hc & Hf).
    exists calls. split; [exact Hc|].
    eapply Forall_impl; [|exact Hf]. cbn. intros e He options Ho.
    specialize (He options Ho). unfold axeOptions in He.
    destruct (tags args) as [[|t ts]|]; exact He.
Qed.

(** X9: [includeHtml] never changes what the browser and the engine are
    asked to do: two audits of the same [url] with the same [tags] make the
    same external calls, fail alike, and succeed alike. *)
Theorem includeHtml_leaves_external_calls_alone (host : Host)
    (first second : Args) (log : list event) :
  url first = url second -> tags first = tags second ->
  snd (auditWebpage host first log) = snd (auditWebpage host second log) /\
  match fst (auditWebpage host first log), fst (auditWebpage host second log) with
  | Thrown e1, Thrown e2 => e1 = e2
  | Returned r1, Returned r2 =>
      isError r1 = isError r2 /\ (isError r1 = Some true -> r1 = r2)
  | _, _ => False
  end.
Proof.
  intros Hu Ht. unfold auditWebpage, axeOptions. rewrite Hu, Ht.
  destruct (url second) as [[|c s]|];
    [split; reflexivity | | split; reflexivity].
  unfold try_catch, bind, await, ret.
  step_host host; cbn [fst snd]; (split; [reflexivity|]);
    unfold text_result; cbn [isError]; (split; [reflexivity|]);
    try reflexivity; discriminate.
Qed.

Lemma includeHtml_leaves_external_calls_alone_witness :
  snd (auditWebpage (Sample.serving Sample.clean_page)
                    {| url := Some "http://example.com/";
                       includeHtml := Some true; tags := None |} [])
  = snd (auditWebpage (Sample.serving Sample.clean_page)
                      (Sample.request "http://example.com/") []).
Proof.
  exact (proj1 (includeHtml_leaves_external_calls_alone
                  (Sample.serving Sample.clean_page)
                  {| url := Some "http://example.com/";
                     includeHtml := Some true; tags := None |}
                  (Sample.request "http://example.com/") []
                  eq_refl eq_refl)).
Defined.

(** ** The course of a session *)



(** X7: a failure of [browser.close()] costs the whole answer.  When every
    call up to the engine run has returned and closing the browser throws,
    both operations answer with the error result made of the closing
    failure's message; the findings the engine delivered are not
    returned. *)
Theorem close_failure_discards_findings (host : Host) (args : Args)
    (log : list event) (address message : string)
    (audited summarized : AxeResults) :
  url args = Some address -> address <> "" ->
  launch host = Ok tt -> newPage host = Ok tt -> setViewport host = Ok tt ->
  goto host address = Ok tt ->
  analyze host address (Some (axeOptions args)) = Ok audited ->
  analyze host address None = Ok summarized ->
  close host = Fails message ->
  fst (auditWebpage host args log)
  = Returned (error_result "Error auditing webpage: " message) /\
  fst (getSummary host args log)
  = Returned (error_result "Error getting summary: " message).
Proof.
  intros Hu Ha Hl Hn Hv Hg Ha1 Ha2 Hc.
  split.
  - apply (auditWebpage_failure host args log address message Hu Ha).
    unfold session_failure. now rewrite Hl, Hn, Hv, Hg, Ha1, Hc.
  - apply (getSummary_failure host args log address message Hu Ha).
    unfold session_failure. now rewrite Hl, Hn, Hv, Hg, Ha2, Hc.
Qed.

Lemma close_failure_discards_findings_witness :
  fst (auditWebpage (Scenario.close_failing Sample.clean_page)
                    (Sample.request "http://example.com/") [])
  = Returned (error_result "Error auditing webpage: "
                           "Protocol error: Connection closed") /\
  fst (getSummary (Scenario.close_failing Sample.clean_page)
                  (Sample.request "http://example.com/") [])
  = Returned (error_result "Error getting summary: "
                           "Protocol error: Connection closed").
Proof.
  assert (Ha : "http://example.com/" <> "") by discriminate.
  exact (close_failure_discards_findings
           (Scenario.close_failing Sample.clean_page)
           (Sample.request "http://example.com/") []
           "http://example.com/" "Protocol error: Connection closed"
           Sample.clean_page Sample.clean_page
           eq_refl Ha eq_refl eq_refl eq_refl eq_refl eq_refl eq_refl eq_refl).
Defined.

(** ** What the report and the summary hold *)

(** X8: the report of a successful audit carries every raw violation, in
    the engine's order, as an object of exactly five properties whose
    [id], [impact], [description] and [helpUrl] are the raw values; its
    [nodes] carry every raw node in order, with the raw [impact], [target]
    and [failureSummary] and, besides [html] when it was asked for, no other
    property. *)
Theorem report_carries_raw_fields (host : Host) (args : Args)
    (log log' : list event) (r : CallToolResult) :
  auditWebpage host args log = (Returned r, log') -> succeeded r ->
  exists address results report,
    analyze host address (Some (axeOptions args)) = Ok results /\
    payload r = Some (JSON_stringify report) /\
    Forall2
      (fun f v =>
         keys f = ["id"; "impact"; "description"; "helpUrl"; "nodes"] /\
         get "id" f = Some (id v) /\
         get "impact" f = Some (impact_value (impact v)) /\
         get "description" f = Some (description v) /\
         get "helpUrl" f = Some (helpUrl v) /\
         Forall2
           (fun fnode node =>
              get "impact" fnode = Some (node_impact node) /\
              get "target" fnode = Some (node_target node) /\
              get "failureSummary" fnode = Some (node_failureSummary node) /\
              keys fnode
              = (["impact"; "target"; "failureSummary"]
                 ++ match includeHtml args with
                    | Some true => ["html"]
                    | _ => []
                    end)%list)
           (array_items (get "nodes" f)) (nodes v))
      (array_items (get "violations" report)) (violations results).
Proof.
  intros Hrun Hok.
  destruct (auditWebpage_succeeded _ _ _ _ _ Hrun Hok)
    as (address & res & _ & _ & Hres & -> & _).
  exists address, res, (formattedResults args address (now host) res).
  split; [exact Hres|]. split; [reflexivity|].
  rewrite formattedResults_violations. cbn [array_items].
  apply Forall2_map_left. intros v _.
  do 5 (split; [reflexivity|]).
  rewrite formattedViolation_nodes. cbn [array_items].
  apply Forall2_map_left. intros n _. unfold formattedNode.
  destruct (includeHtml args) as [[|]|]; repeat split.
Qed.

Lemma report_carries_raw_fields_witness :
  exists report,
    payload (text_result
               (JSON_stringify
                  (formattedResults (Sample.request "http://example.com/")
                     "http://example.com/" "2024-05-01T10:00:00.000Z"
                     (Sample.page_with Scenario.mixed_findings))) None)
    = Some (JSON_stringify report) /\
    List.length (array_items (get "violations" report)) = 7%nat.
Proof.
  destruct (report_carries_raw_fields
              (Sample.serving (Sample.page_with Scenario.mixed_findings))
              (Sample.request "http://example.com/") [] _ _
              eq_refl eq_refl)
    as (address & res & report & Hres & Hp & Hall).
  injection Hres as <-.
  exists report. split; [exact Hp|].
  apply Forall2_length in Hall. exact Hall.
Defined.

Lemma StronglySorted_app_cross {A : Type} (R : A -> A -> Prop)
    (l1 l2 : list A) :
  StronglySorted R (l1 ++ l2) ->
  forall a b, In a l1 -> In b l2 -> R a b.
Proof.
  induction l1 as [|x l1 IH]; intros Hs a b Ha Hb; [destruct Ha|].
  cbn in Hs. apply StronglySorted_inv in Hs. destruct Hs as [Hs Hx].
  destruct Ha as [<-|Ha].
  - rewrite Forall_forall in Hx. apply Hx, in_or_app. now right.
  - now apply IH.
Qed.

(** X10: whatever severities the engine reports, [topIssues] is made of
    violations of the raw list: there is a way to split a rearrangement of
    the list into the violations shown and the ones left out, so none is
    invented and none is shown twice; with five violations or fewer none is
    left out. *)
Theorem topIssues_are_chosen_among_violations (vs : list Result) :
  exists chosen rest,
    topIssues vs = map topIssue chosen /\
    Permutation (chosen ++ rest) vs /\
    List.length chosen = Nat.min 5 (List.length vs) /\
    ((List.length vs <= 5)%nat -> rest = []).
Proof.
  exists (firstn 5 (Array_sort compareImpact vs)),
         (skipn 5 (Array_sort compareImpact vs)).
  split; [reflexivity|]. split; [|split].
  - rewrite firstn_skipn. apply Array_sort_Permutation.
  - now rewrite length_firstn, Array_sort_length.
  - intros H. apply skipn_all2. now rewrite Array_sort_length.
Qed.

(** X11: when every severity is recognized, [topIssues] shows the most
    severe violations: a violation left out never has a smaller rank than a
    violation shown. *)
Theorem topIssues_are_the_most_severe (vs : list Result) :
  Forall (fun v => recognized (impact v) = true) vs ->
  exists chosen rest,
    topIssues vs = map topIssue chosen /\
    Permutation (chosen ++ rest) vs /\
    forall shown left_out,
      In shown chosen -> In left_out rest ->
      exists r r',
        impactRank shown = Some r /\ impactRank left_out = Some r' /\
        (r <= r')%Z.
Proof.
  intros H.
  exists (firstn 5 (Array_sort compareImpact vs)),
         (skipn 5 (Array_sort compareImpact vs)).
  split; [reflexivity|].
  assert (Hp : Permutation
                 (firstn 5 (Array_sort compareImpact vs)
                  ++ skipn 5 (Array_sort compareImpact vs)) vs).
  { rewrite firstn_skipn. apply Array_sort_Permutation. }
  split; [exact Hp|].
  intros a b Ha Hb.
  rewrite Forall_forall in H.
  assert (Hra : recognized (impact a) = true).
  { apply H. eapply Permutation_in; [exact Hp|]. apply in_or_app. now left. }
  assert (Hrb : recognized (impact b) = true).
  { apply H. eapply Permutation_in; [exact Hp|]. apply in_or_app. now right. }
  exists (rank_key a), (rank_key b).
  split; [apply recognized_rank, Hra|]. split; [apply recognized_rank, Hrb|].
  revert Ha Hb. rewrite Array_sort_recognized by (apply Forall_forall, H).
  intros Ha Hb.
  apply (StronglySorted_app_cross (key_le rank_key)
           (firstn 5 (sort_by rank_key vs)) (skipn 5 (sort_by rank_key vs)));
    [|assumption|assumption].
  rewrite firstn_skipn. apply sort_by_sorted.
Qed.

Lemma topIssues_are_the_most_severe_witness :
  exists chosen rest,
    topIssues Scenario.mixed_findings = map topIssue chosen /\
    Permutation (chosen ++ rest) Scenario.mixed_findings.
Proof.
  destruct (topIssues_are_the_most_severe Scenario.mixed_findings)
    as (chosen & rest & Ht & Hp & _).
  - repeat constructor.
  - exists chosen, rest. split; [exact Ht | exact Hp].
Defined.

(** X12: everything a summary says can be read off the report of the same
    raw result: the same [url], [totalIssues] is the number of reported
    violations, [passedTests] and [incompleteTests] are the report's
    [passes] and [incomplete], and every entry of [topIssues] has exactly
    the properties [id], [impact], [description] and [helpUrl], with the
    values of one of the report's violations; it carries no nodes. *)
Theorem summary_can_be_read_off_the_report (args : Args)
    (address t1 t2 : string) (results : AxeResults) :
  let report := formattedResults args address t1 results in
  let s := summary address t2 results in
  get "url" s = get "url" report /\
  get "totalIssues" s
  = Some (Num (Z.of_nat (List.length (array_items (get "violations" report))))) /\
  get "passedTests" s = get "passes" report /\
  get "incompleteTests" s = get "incomplete" report /\
  Forall (fun issue =>
            keys issue = ["id"; "impact"; "description"; "helpUrl"] /\
            exists f,
              In f (array_items (get "violations" report)) /\
              forall k, In k (keys issue) -> get k issue = get k f)
         (array_items (get "topIssues" s)).
Proof.
  cbv zeta. split; [reflexivity|]. split.
  { rewrite formattedResults_violations. cbn [array_items].
    now rewrite length_map. }
  split; [reflexivity|]. split; [reflexivity|].
  rewrite formattedResults_violations. cbn [array_items get summary lookup].
  cbn. unfold topIssues. apply Forall_map, Forall_forall. intros v Hv.
  split; [reflexivity|].
  exists (formattedViolation args v). split.
  - apply in_map.
    eapply Permutation_in; [apply Array_sort_Permutation|].
    rewrite <- (firstn_skipn 5 (Array_sort compareImpact (violations results))).
    apply in_or_app. now left.
  - cbn. intros k [<-|[<-|[<-|[<-|[]]]]]; reflexivity.
Qed.

(** * release.sh *)

Module ReleaseProofs.

Import Release ReleaseSpec.

(** ** [validate_version] *)

Lemma append_empty_r (s : string) : s ++ "" = s.
Proof. induction s as [|c s IH]; cbn; [reflexivity | now rewrite IH]. Qed.

Lemma skip_digits_stops (s : string) : starts_without_digit (skip_digits s).
Proof.
  induction s as [|c s IH]; cbn; [exact I|].
  destruct (is_digit c) eqn:E; [exact IH | exact E].
Qed.

Lemma skip_digits_split (s : string) :
  exists a, s = a ++ skip_digits s /\ all_digits a = true.
Proof.
  induction s as [|c s (a & Ha & Hd)]; cbn.
  - exists "". auto.
  - destruct (is_digit c) eqn:E.
    + exists (String c a). cbn. rewrite E, Hd. split; [now f_equal | reflexivity].
    + exists "". auto.
Qed.

Lemma skip_digits_app (a rest : string) :
  all_digits a = true -> starts_without_digit rest ->
  skip_digits (a ++ rest) = rest.
Proof.
  intros Ha Hr. induction a as [|c a IH]; cbn in *.
  - destruct rest as [|c r]; cbn in *; [reflexivity | now rewrite Hr].
  - apply andb_prop in Ha. destruct Ha as [Hc Ha]. rewrite Hc. now apply IH.
Qed.

Lemma digits_inv (s rest : string) :
  digits s = Some rest ->
  exists a, s = a ++ rest /\ numeral a = true /\ starts_without_digit rest.
Proof.
  destruct s as [|c s]; cbn; [discriminate|].
  destruct (is_digit c) eqn:E; [|discriminate]. intros [= <-].
  destruct (skip_digits_split s) as (a & Ha & Hd).
  exists (String c a). split; [cbn; now f_equal|].
  split; [unfold numeral; cbn; now rewrite E, Hd | apply skip_digits_stops].
Qed.

Lemma digits_app (a rest : string) :
  numeral a = true -> starts_without_digit rest -> digits (a ++ rest) = Some rest.
Proof.
  unfold numeral. destruct a as [|c a]; cbn; [discriminate|].
  intros Ha Hr. apply andb_prop in Ha. destruct Ha as [Hc Ha]. rewrite Hc.
  now rewrite skip_digits_app.
Qed.

Lemma dot_inv (s rest : string) : dot s = Some rest -> s = "." ++ rest.
Proof.
  destruct s as [|c s]; cbn; [discriminate|].
  destruct (Ascii.eqb_spec c "."%char) as [->|]; [|discriminate].
  now intros [= <-].
Qed.

(** X13: [validate_version] lets a version through exactly when it is three
    non-empty runs of the digits 0-9 joined by two dots, with nothing before,
    between or after; every other text ends the script with status 1. *)
Theorem validate_version_accepts_three_numerals (v : string) :
  (validate_version v = (Next tt, [])
   <-> exists a b c,
         v = a ++ "." ++ b ++ "." ++ c /\
         numeral a = true /\ numeral b = true /\ numeral c = true) /\
  (validate_version v = (Next tt, []) \/
   validate_version v
   = (Exit 1, [print RED "Error: Version must be in the format x.y.z"])).
Proof.
  unfold validate_version. split.
  - split.
    + destruct (version_format v) eqn:E; [intros _|discriminate].
      unfold version_format, then_ in E.
      destruct (digits v) as [s1|] eqn:E1; [|discriminate].
      destruct (dot s1) as [s2|] eqn:E2; [|discriminate].
      destruct (digits s2) as [s3|] eqn:E3; [|discriminate].
      destruct (dot s3) as [s4|] eqn:E4; [|discriminate].
      destruct (digits s4) as [[|? ?]|] eqn:E5; try discriminate.
      apply digits_inv in E1, E3, E5.
      destruct E1 as (a & -> & Ha & _). destruct E3 as (b & -> & Hb & _).
      destruct E5 as (c & -> & Hc & _).
      apply dot_inv in E2, E4. subst s1 s3.
      exists a, b, c. repeat split; auto.
      cbn. now rewrite append_empty_r.
    + intros (a & b & c & -> & Ha & Hb & Hc).
      assert (E : version_format (a ++ "." ++ b ++ "." ++ c) = true).
      { unfold version_format, then_.
        rewrite (digits_app a) by (auto; reflexivity). cbn [dot append Ascii.eqb Bool.eqb].
        cbn. rewrite (digits_app b) by (auto; reflexivity). cbn.
        rewrite <- (append_empty_r c). rewrite (digits_app c) by (auto; exact I).
        reflexivity. }
      now rewrite E.
  - destruct (version_format v); [left | right]; reflexivity.
Qed.

(** ** The command line *)

Lemma bind_ret_nil {A B : Type} (a : A) (k : A -> Sh B) :
  bind (Next a, []) k = k a.
Proof. unfold bind. destruct (k a). reflexivity. Qed.

Lemma prefix_split (p s : string) :
  String.prefix p s = true -> exists rest, s = p ++ rest.
Proof.
  revert s. induction p as [|c p IH]; intros s H; [now exists s|].
  destruct s as [|c' s]; cbn in H; [discriminate|].
  destruct (ascii_dec c c') as [->|]; [|discriminate].
  destruct (IH s H) as [rest ->]. now exists rest.
Qed.

Lemma version_option_split (arg : string) :
  version_option arg = true -> arg = "--version=" ++ strip_to_equals arg.
Proof.
  intros H. destruct (prefix_split _ _ H) as [rest ->]. reflexivity.
Qed.

Ltac by_argument arg :=
  destruct (String.eqb_spec arg "--major") as [->|?];
  [|destruct (String.eqb_spec arg "--minor") as [->|?];
    [|destruct (String.eqb_spec arg "--patch") as [->|?];
      [|destruct (version_option arg) eqn:?;
        [|destruct (String.eqb_spec arg "--skip-tests") as [->|?];
          [|destruct (String.eqb_spec arg "--skip-git") as [->|?];
            [|destruct (String.eqb_spec arg "--dry-run") as [->|?];
              [|destruct (String.eqb_spec arg "--force") as [->|?];
                [|destruct (String.eqb_spec arg "--help") as [->|?]]]]]]]]].

Lemma parse_arguments_step (arg : string) (rest : list string) (o : Options) :
  parse_arguments (arg :: rest) o
  = if String.eqb arg "--major" then parse_arguments rest (set_VERSION_TYPE major o)
    else if String.eqb arg "--minor" then parse_arguments rest (set_VERSION_TYPE minor o)
    else if String.eqb arg "--patch" then parse_arguments rest (set_VERSION_TYPE patch o)
    else if version_option arg then
      bind (validate_version (strip_to_equals arg))
           (fun _ => parse_arguments rest
                       (set_CUSTOM_VERSION (strip_to_equals arg) o))
    else if String.eqb arg "--skip-tests" then parse_arguments rest (set_SKIP_TESTS o)
    else if String.eqb arg "--skip-git" then parse_arguments rest (set_SKIP_GIT o)
    else if String.eqb arg "--dry-run" then parse_arguments rest (set_DRY_RUN o)
    else if String.eqb arg "--force" then parse_arguments rest (set_FORCE o)
    else if String.eqb arg "--help" then (Exit 0, map echo usage)
    else (Exit 1, [print RED ("Unknown parameter: " ++ arg);
                   echo "Use --help for usage information"]).
Proof. reflexivity. Qed.

Lemma version_option_not_flag (arg flag : string) :
  version_option arg = true -> In flag ("--help" :: plain_flags) ->
  String.eqb flag arg = false.
Proof.
  intros H Hf. destruct (prefix_split _ _ H) as [rest ->].
  cbn in Hf. decompose [or] Hf; subst; try reflexivity. contradiction.
Qed.

(** Parsing emits nothing that is a command. *)
Lemma parse_arguments_runs_nothing (argv : list string) :
  forall o, commands (parse_arguments argv o) = [].
Proof.
  induction argv as [|arg rest IH]; intros o; [reflexivity|].
  rewrite parse_arguments_step.
  by_argument arg; try apply IH; try reflexivity.
  unfold validate_version, ret.
  destruct (version_format (strip_to_equals arg)); cbv beta iota.
  - rewrite bind_ret_nil. apply IH.
  - reflexivity.
Qed.

Lemma parse_arguments_next (argv : list string) :
  forall o o' emitted,
    parse_arguments argv o = (Next o', emitted) ->
    emitted = [] /\
    Forall (fun arg => accepted arg = true) argv /\
    VERSION_TYPE o' = last_bump argv (VERSION_TYPE o) /\
    SKIP_TESTS o' = SKIP_TESTS o || given "--skip-tests" argv /\
    SKIP_GIT o' = SKIP_GIT o || given "--skip-git" argv /\
    DRY_RUN o' = DRY_RUN o || given "--dry-run" argv /\
    FORCE o' = FORCE o || given "--force" argv /\
    ((forallb (fun arg => negb (version_option arg)) argv = true /\
      CUSTOM_VERSION o' = CUSTOM_VERSION o) \/
     (version_format (CUSTOM_VERSION o') = true /\
      In ("--version=" ++ CUSTOM_VERSION o') argv)).
Proof.
  induction argv as [|arg rest IH]; intros o o' emitted H.
  - injection H as <- <-. cbn. rewrite !orb_false_r. repeat split; auto.
  - rewrite parse_arguments_step in H. unfold given in *.
    by_argument arg; cbv beta iota in H; try discriminate H;
      try (apply IH in H; cbn [set_VERSION_TYPE set_SKIP_TESTS set_SKIP_GIT
                                 set_DRY_RUN set_FORCE VERSION_TYPE SKIP_TESTS
                                 SKIP_GIT DRY_RUN FORCE CUSTOM_VERSION] in H;
           destruct H as (He & Hacc & Ht & Hst & Hsg & Hd & Hf & Hc);
           cbn; rewrite ?orb_false_r, ?orb_true_r, ?orb_true_l in *;
           repeat split; auto;
           try (constructor; [reflexivity | assumption]);
           destruct Hc as [[Hn Hc]|[Hv Hc]];
           [ left; split; assumption
           | right; split; [assumption | right; assumption] ]).
    + unfold validate_version, ret in H.
      destruct (version_format (strip_to_equals arg)) eqn:Ev; [|discriminate H].
      cbv beta iota in H. rewrite bind_ret_nil in H. apply IH in H.
      cbn [set_CUSTOM_VERSION VERSION_TYPE SKIP_TESTS SKIP_GIT DRY_RUN FORCE
             CUSTOM_VERSION] in H.
      destruct H as (He & Hacc & Ht & Hst & Hsg & Hd & Hf & Hc).
      assert (Hb : bump_flag arg = None).
      { unfold bump_flag.
        destruct (String.eqb_spec arg "--major"); [contradiction|].
        destruct (String.eqb_spec arg "--minor"); [contradiction|].
        destruct (String.eqb_spec arg "--patch"); [contradiction|reflexivity]. }
      cbn [existsb forallb last_bump fold_left]. rewrite Hb.
      rewrite !(version_option_not_flag arg) by (auto; cbn; auto 10).
      cbn [orb]. repeat split; auto.
      * constructor; [|assumption]. unfold accepted. rewrite Heqb, Ev.
        apply orb_true_r.
      * right. destruct Hc as [[Hn ->]|[Hv Hc]].
        -- split; [exact Ev|]. left. now apply version_option_split.
        -- split; [exact Hv|]. now right.
Qed.

Lemma accepted_not_help (arg : string) :
  accepted arg = true -> arg <> "--help".
Proof. intros H ->. discriminate H. Qed.

Lemma version_option_accepted (arg : string) :
  version_option arg = true ->
  accepted arg = version_format (strip_to_equals arg).
Proof.
  intros H. unfold accepted. rewrite H.
  replace (existsb (String.eqb arg) plain_flags) with false; [reflexivity|].
  symmetry. cbn.
  rewrite !(String.eqb_sym arg), !(version_option_not_flag arg)
    by (auto; cbn; auto 10).
  reflexivity.
Qed.

Lemma unknown_not_accepted (arg : string) :
  arg <> "--major" -> arg <> "--minor" -> arg <> "--patch" ->
  version_option arg = false ->
  arg <> "--skip-tests" -> arg <> "--skip-git" -> arg <> "--dry-run" ->
  arg <> "--force" -> accepted arg = false.
Proof.
  intros. unfold accepted. cbn.
  repeat match goal with
         | H : arg <> _ |- _ => apply String.eqb_neq in H; rewrite H; clear H
         end.
  now rewrite H2.
Qed.

(** Accepted arguments are consumed one after the other. *)
Lemma parse_arguments_accepted (good : list string) :
  Forall (fun arg => accepted arg = true) good ->
  forall rest o,
  exists o1,
    parse_arguments good o = (Next o1, []) /\
    parse_arguments (good ++ rest) o = parse_arguments rest o1.
Proof.
  induction 1 as [|arg good Harg Hgood IH]; intros rest o.
  - exists o. split; reflexivity.
  - cbn [app]. rewrite !parse_arguments_step.
    by_argument arg; try apply IH.
    + rewrite version_option_accepted in Harg by assumption.
      unfold validate_version, ret. rewrite Harg. cbv beta iota.
      rewrite !bind_ret_nil. apply IH.
    + discriminate Harg.
    + rewrite unknown_not_accepted in Harg by assumption. discriminate Harg.
Qed.

(** X14: the command line is read flag by flag.  Parsing goes through,
    printing nothing, exactly when every argument is one of the seven flags
    or a [--version=] whose value has the x.y.z format; then each switch is
    on exactly when its flag occurs, the last of [--major], [--minor] and
    [--patch] decides the bump, and the custom version is either the
    inherited one (no [--version=] given) or the well-formed value of a
    [--version=] argument. *)
Theorem command_line_is_read_flag_by_flag (sh : Shell) (argv : list string) :
  (Forall (fun arg => accepted arg = true) argv
   <-> exists o, parse_arguments argv (defaults sh) = (Next o, [])) /\
  forall o emitted,
    parse_arguments argv (defaults sh) = (Next o, emitted) ->
    emitted = [] /\
    VERSION_TYPE o = last_bump argv patch /\
    SKIP_TESTS o = given "--skip-tests" argv /\
    SKIP_GIT o = given "--skip-git" argv /\
    DRY_RUN o = given "--dry-run" argv /\
    FORCE o = given "--force" argv /\
    ((forallb (fun arg => negb (version_option arg)) argv = true /\
      CUSTOM_VERSION o = inherited_CUSTOM_VERSION sh) \/
     (version_format (CUSTOM_VERSION o) = true /\
      In ("--version=" ++ CUSTOM_VERSION o) argv)).
Proof.
  split.
  - split.
    + intros H. destruct (parse_arguments_accepted argv H [] (defaults sh))
        as (o1 & Ho & _). eauto.
    + intros [o Ho]. now apply parse_arguments_next in Ho.
  - intros o emitted Ho. apply parse_arguments_next in Ho.
    cbn [defaults VERSION_TYPE SKIP_TESTS SKIP_GIT DRY_RUN FORCE
           CUSTOM_VERSION orb] in Ho. tauto.
Qed.

(** X15: the first argument that is not accepted ends the script at once,
    whatever follows it and before any command is run: [--help] prints the
    usage and exits 0, a malformed [--version=] prints the format error and
    exits 1, anything else is reported as an unknown parameter and exits
    1. *)
Theorem first_rejected_argument_ends_the_script (sh : Shell)
    (good : list string) (bad : string) (rest : list string) :
  package_json sh = true ->
  Forall (fun arg => accepted arg = true) good ->
  accepted bad = false ->
  release sh (good ++ bad :: rest)
  = if String.eqb bad "--help" then (Exit 0, map echo usage)
    else if version_option bad then
      (Exit 1, [print RED "Error: Version must be in the format x.y.z"])
    else
      (Exit 1, [print RED ("Unknown parameter: " ++ bad);
                echo "Use --help for usage information"]).
Proof.
  intros Hp Hgood Hbad. unfold release. rewrite Hp. cbn [negb].
  destruct (parse_arguments_accepted good Hgood (bad :: rest) (defaults sh))
    as (o1 & _ & ->).
  rewrite parse_arguments_step.
  by_argument bad; try discriminate Hbad; try reflexivity.
  rewrite version_option_accepted in Hbad by assumption.
  rewrite (String.eqb_sym bad), (version_option_not_flag bad)
    by (auto; cbn; auto).
  unfold validate_version. rewrite Hbad. reflexivity.
Qed.

Lemma first_rejected_argument_ends_the_script_witness :
  release fine ["--minor"; "--help"; "--bogus"] = (Exit 0, map echo usage).
Proof.
  assert (Hgood : Forall (fun arg => accepted arg = true) ["--minor"])
    by (repeat constructor).
  exact (first_rejected_argument_ends_the_script
           fine ["--minor"] "--help" ["--bogus"] eq_refl Hgood eq_refl).
Defined.

(** ** The course of a release *)

Lemma given_In (flag : string) (argv : list string) :
  given flag argv = true <-> In flag argv.
Proof.
  unfold given. rewrite existsb_exists. split.
  - intros (x & Hx & E). apply String.eqb_eq in E. now subst.
  - intros H. exists flag. split; [assumption | apply String.eqb_refl].
Qed.

Lemma bind_exit {A B : Type} (code : nat) (emitted : list action)
    (k : A -> Sh B) :
  bind (Exit code, emitted) k = (Exit code, emitted).
Proof. reflexivity. Qed.

Ltac unfold_script :=
  unfold git_setup, check_git_clean, dirty_tree_when, choose_version,
    run_tests, publish, run, assign_output, substitute, succeeds,
    print_green, print_yellow, print_red, emit, bind, ret, exit.

Ltac branch :=
  match goal with
  | |- context [if ?b then _ else _] =>
      let E := fresh "E" in destruct b eqn:E
  end.

Ltac script_cases := cbn; repeat (branch; cbn).

(** What a run looks like once the command line has been read. *)
Lemma release_after_parsing (sh : Shell) (argv : list string) :
  (package_json sh = false /\
   release sh argv
   = (Exit 1, [print RED "Error: package.json not found. Please run this script from the root directory of the project."])) \/
  (exists code emitted,
      release sh argv = (Exit code, emitted) /\ executed emitted = []) \/
  (exists o,
      package_json sh = true /\
      parse_arguments argv (defaults sh) = (Next o, []) /\
      release sh argv
      = bind (git_setup sh o)
             (fun o =>
                bind (choose_version sh o)
                     (fun NEW_VERSION =>
                        if DRY_RUN o then
                          bind (print_yellow "Dry run mode. No changes will be made.")
                               (fun _ => exit 0)
                        else
                          bind (run_tests sh o)
                               (fun _ => publish sh o NEW_VERSION)))).
Proof.
  unfold release. destruct (package_json sh); cbn [negb]; [|left; auto].
  right. destruct (parse_arguments argv (defaults sh)) as [[o|code] e] eqn:Hp.
  - right. exists o. pose proof (parse_arguments_next _ _ _ _ Hp) as [-> _].
    split; [reflexivity|]. split; [reflexivity|]. now rewrite bind_ret_nil.
  - left. exists code, e. rewrite bind_exit. split; [reflexivity|].
    pose proof (parse_arguments_runs_nothing argv (defaults sh)) as H.
    now rewrite Hp in H.
Qed.

(** X16: with [--dry-run] on the command line the script changes nothing:
    whatever the shell answers, the only commands it runs are
    [git status --porcelain] and [node -p], and it never reaches the end of
    the script (it exits, with status 0 when it gets to the dry-run
    check). *)
Theorem dry_run_changes_nothing (sh : Shell) (argv : list string) :
  In "--dry-run" argv ->
  forallb harmless (commands (release sh argv)) = true /\
  exists code, fst (release sh argv) = Exit code.
Proof.
  intros Hdry.
  destruct (release_after_parsing sh argv)
    as [[_ ->] | [(code & e & -> & He) | (o & _ & Hp & ->)]].
  - split; [reflexivity | eexists; reflexivity].
  - unfold commands. cbn [snd fst]. rewrite He.
    split; [reflexivity | eexists; reflexivity].
  - apply parse_arguments_next in Hp.
    destruct Hp as (_ & _ & _ & _ & _ & Hd & _).
    apply given_In in Hdry. cbn [defaults DRY_RUN orb] in Hd.
    rewrite Hdry in Hd.
    unfold_script. unfold commands.
    destruct (SKIP_GIT o); cbn; rewrite ?Hd;
      repeat (branch; cbn; rewrite ?Hd);
      (split; [reflexivity | eexists; reflexivity]).
Qed.

Lemma dry_run_changes_nothing_witness :
  commands (release fine ["--minor"; "--dry-run"])
  = [git_status_porcelain; node_p read_version_script;
     node_p (bump_script minor "1.4.2")] /\
  fst (release fine ["--minor"; "--dry-run"]) = Exit 0.
Proof.
  destruct (dry_run_changes_nothing fine ["--minor"; "--dry-run"])
    as [_ [code Hc]].
  - right. left. reflexivity.
  - split; reflexivity.
Defined.

Lemma executed_app (e1 e2 : list action) :
  executed (e1 ++ e2) = (executed e1 ++ executed e2)%list.
Proof. apply flat_map_app. Qed.

(** The script after the command line, stage by stage. *)
Lemma release_stage_by_stage (sh : Shell) (argv : list string) (o : Options) :
  parse_arguments argv (defaults sh) = (Next o, []) ->
  package_json sh = true ->
  release sh argv
  = match git_setup sh o with
    | (Exit code, eg) => (Exit code, eg)
    | (Next o2, eg) =>
        match choose_version sh o2 with
        | (Exit code, ev) => (Exit code, (eg ++ ev)%list)
        | (Next v, ev) =>
            if DRY_RUN o2 then
              (Exit 0,
               (eg ++ ev
                ++ [print YELLOW "Dry run mode. No changes will be made."])%list)
            else
              match run_tests sh o2 with
              | (Exit code, et) => (Exit code, (eg ++ ev ++ et)%list)
              | (Next _, et) =>
                  (fst (publish sh o2 v),
                   (eg ++ ev ++ et ++ snd (publish sh o2 v))%list)
              end
        end
    end.
Proof.
  intros Hp Hpkg. unfold release. rewrite Hpkg, Hp. cbn [negb].
  rewrite bind_ret_nil. unfold bind at 1.
  destruct (git_setup sh o) as [[o2|code] eg]; [|reflexivity].
  unfold bind at 1.
  destruct (choose_version sh o2) as [[v|code] ev]; [|reflexivity].
  destruct (DRY_RUN o2); [reflexivity|].
  unfold bind at 1.
  destruct (run_tests sh o2) as [[[]|code] et]; [|reflexivity].
  destruct (publish sh o2 v) as [r ep]. reflexivity.
Qed.

Lemma git_setup_spec (sh : Shell) (o : Options) :
  (commands (git_setup sh o) = []
   \/ commands (git_setup sh o) = [git_status_porcelain]) /\
  (SKIP_GIT o = true \/ git_command sh = false \/ git_directory sh = false ->
   commands (git_setup sh o) = [] /\
   exists o2, fst (git_setup sh o) = Next o2 /\ SKIP_GIT o2 = true) /\
  (forall o2, fst (git_setup sh o) = Next o2 ->
              VERSION_TYPE o2 = VERSION_TYPE o /\
              SKIP_TESTS o2 = SKIP_TESTS o /\ DRY_RUN o2 = DRY_RUN o /\
              FORCE o2 = FORCE o /\ CUSTOM_VERSION o2 = CUSTOM_VERSION o).
Proof.
  unfold_script. unfold commands.
  destruct (SKIP_GIT o) eqn:Es, (git_command sh) eqn:Eg,
           (git_directory sh) eqn:Ed, (FORCE o) eqn:Ef,
           (nonempty (stdout sh git_status_porcelain)) eqn:En; cbn;
    (split; [auto|]);
    (split; [intros [H|[H|H]]; try discriminate H; split; eauto|]);
    try (intros o2 [= <-]; cbn; auto); try discriminate.
Qed.

Lemma choose_version_spec (sh : Shell) (o : Options) :
  (forall c, In c (commands (choose_version sh o)) -> exists s, c = node_p s) /\
  (nonempty (CUSTOM_VERSION o) = true ->
   commands (choose_version sh o) = [node_p read_version_script] /\
   forall v, fst (choose_version sh o) = Next v -> v = CUSTOM_VERSION o).
Proof.
  unfold_script. unfold commands.
  destruct (Nat.eqb (status sh (node_p read_version_script)) 0);
    destruct (nonempty (CUSTOM_VERSION o)); cbn;
    try destruct (Nat.eqb (status sh (node_p _)) 0); cbn;
    (split; [intros c Hc; decompose [or] Hc; subst; eauto; contradiction|]);
    intros H; try discriminate H;
    (split; [reflexivity|]); intros v Hv;
    congruence.
Qed.

Lemma run_tests_spec (sh : Shell) (o : Options) :
  (forall c, In c (commands (run_tests sh o)) -> c = grep_q_test \/ c = npm_test) /\
  ((exists u, fst (run_tests sh o) = Next u /\
              (In npm_test (commands (run_tests sh o)) ->
               status sh npm_test = 0)) \/
   (fst (run_tests sh o) = Exit (status sh npm_test) /\
    status sh npm_test <> 0)) /\
  (SKIP_TESTS o = true -> commands (run_tests sh o) = []).
Proof.
  unfold_script. unfold commands.
  destruct (SKIP_TESTS o), (Nat.eqb (status sh grep_q_test) 0),
    (Nat.eqb_spec (status sh npm_test) 0); cbn;
    (split; [intros c Hc; decompose [or] Hc; subst; auto; contradiction|]);
    (split; [|intros H; try discriminate H; reflexivity]);
    try (left; eexists; split; [reflexivity|]; cbn; intuition discriminate);
    right; split; auto.
Qed.

Lemma publish_spec (sh : Shell) (o : Options) (v : string) :
  (forall c, In c (commands (publish sh o v)) -> changes c = true) /\
  (SKIP_GIT o = true ->
   forall c, In c (commands (publish sh o v)) -> uses_git c = false) /\
  (forall c, In c (commands (publish sh o v)) ->
             c = npm_version v \/ c = chmod_x_index \/ c = git_add_package_json \/
             c = git_commit ("chore: bump version to " ++ v) \/
             c = git_tag ("v" ++ v) ("Release v" ++ v) \/ c = npm_publish) /\
  (In npm_publish (commands (publish sh o v)) ->
   In (npm_version v) (commands (publish sh o v)) /\
   (forall c, In c (commands (publish sh o v)) ->
              c = npm_publish \/ status sh c = 0) /\
   (SKIP_GIT o = false ->
    In (git_commit ("chore: bump version to " ++ v)) (commands (publish sh o v)) /\
    In (git_tag ("v" ++ v) ("Release v" ++ v)) (commands (publish sh o v))) /\
   exit_status (publish sh o v) = status sh npm_publish).
Proof.
  unfold_script. unfold commands, exit_status.
  destruct (SKIP_GIT o) eqn:Es; cbn;
    repeat match goal with
           | |- context [Nat.eqb (status sh ?c) 0] =>
               destruct (Nat.eqb_spec (status sh c) 0); cbn
           end;
    (split; [intros c Hc; decompose [or] Hc; subst; try reflexivity; contradiction|]);
    (split; [intros Hs c Hc; try discriminate Hs;
             decompose [or] Hc; subst; try reflexivity; contradiction|]);
    (split; [intros c Hc; decompose [or] Hc; subst; auto 10; contradiction|]);
    intros Hp; try (exfalso; decompose [or] Hp; try discriminate; contradiction);
    (split; [auto|]);
    (split; [intros c Hc; decompose [or] Hc; subst; auto; contradiction|]);
    (split; [intros Hs; try discriminate Hs; auto 10 | auto]).
Qed.

Ltac stages sh argv o Hp Hpkg :=
  rewrite (release_stage_by_stage sh argv o Hp Hpkg) in *;
  let Hgit := fresh "Hgit" in
  let Hver := fresh "Hver" in
  let Htest := fresh "Htest" in
  let Hpub := fresh "Hpub" in
  pose proof (git_setup_spec sh o) as Hgit;
  let o2 := fresh "o2" in
  let v := fresh "v" in
  destruct (git_setup sh o) as [[o2|?] ?eg];
  [ pose proof (choose_version_spec sh o2) as Hver;
    destruct (choose_version sh o2) as [[v|?] ?ev];
    [ destruct (DRY_RUN o2) eqn:?Edry;
      [ | pose proof (run_tests_spec sh o2) as Htest;
          destruct (run_tests sh o2) as [[[]|?] ?et];
          [ pose proof (publish_spec sh o2 v) as Hpub | ] ]
    | ]
  | ];
  unfold commands, exit_status in *; cbn [fst snd] in *;
  rewrite ?executed_app in *.

Lemma in_git_stage (eg : list action) (c : command) :
  executed eg = [] \/ executed eg = [git_status_porcelain] ->
  In c (executed eg) -> c = git_status_porcelain.
Proof.
  intros [E|E] H; rewrite E in H; cbn in H; [contradiction|].
  destruct H as [<-|[]]. reflexivity.
Qed.

(** X17: a failing test suite stops the release.  When [npm test] is run and
    its status is not 0, the script ends there with that status, and none
    of the changing commands ([npm version], [chmod], [git add], [git
    commit], [git tag], [npm publish]) has been run. *)
Theorem failing_tests_stop_the_release (sh : Shell) (argv : list string) :
  In npm_test (commands (release sh argv)) ->
  status sh npm_test <> 0 ->
  exit_status (release sh argv) = status sh npm_test /\
  forallb (fun c => negb (changes c)) (commands (release sh argv)) = true.
Proof.
  intros Hin Hfail.
  destruct (release_after_parsing sh argv)
    as [[_ E] | [(code & e & E & He) | (o & Hpkg & Hp & _)]].
  - rewrite E in Hin. destruct Hin.
  - rewrite E in Hin. unfold commands in Hin. cbn [snd] in Hin.
    rewrite He in Hin. destruct Hin.
  - stages sh argv o Hp Hpkg.
    + (* dry run *)
      destruct Hgit as (Hg & _). destruct Hver as (Hv & _).
      apply in_app_or in Hin. destruct Hin as [H|H].
      * apply (in_git_stage _ _ Hg) in H. discriminate H.
      * apply in_app_or in H. destruct H as [H|[]].
        apply Hv in H. destruct H as [s H]. discriminate H.
    + (* the tests went through *)
      destruct Hgit as (Hg & _). destruct Hver as (Hv & _).
      destruct Htest as (Ht & [(u & _ & Hok)|[Hex _]] & _); [|discriminate Hex].
      destruct Hpub as (Hch & _).
      apply in_app_or in Hin. destruct Hin as [H|H].
      * apply (in_git_stage _ _ Hg) in H. discriminate H.
      * apply in_app_or in H. destruct H as [H|H].
        -- apply Hv in H. destruct H as [s H]. discriminate H.
        -- apply in_app_or in H. destruct H as [H|H].
           ++ apply Hok in H. contradiction.
           ++ apply Hch in H. discriminate H.
    + (* the tests failed *)
      destruct Hgit as (Hg & _). destruct Hver as (Hv & _).
      destruct Htest as (Ht & [(u & Hn & _)|[Hex _]] & _); [discriminate Hn|].
      injection Hex as ->. split; [reflexivity|].
      rewrite !forallb_app. rewrite !andb_true_iff. repeat split.
      * apply forallb_forall. intros c Hc.
        apply (in_git_stage _ _ Hg) in Hc. now subst.
      * apply forallb_forall. intros c Hc.
        apply Hv in Hc. destruct Hc as [s ->]. reflexivity.
      * apply forallb_forall. intros c Hc.
        apply Ht in Hc. destruct Hc as [-> | ->]; reflexivity.
    + (* no version *)
      destruct Hgit as (Hg & _). destruct Hver as (Hv & _).
      apply in_app_or in Hin. destruct Hin as [H|H].
      * apply (in_git_stage _ _ Hg) in H. discriminate H.
      * apply Hv in H. destruct H as [s H]. discriminate H.
    + (* stopped by the git check *)
      destruct Hgit as (Hg & _).
      apply (in_git_stage _ _ Hg) in Hin. discriminate Hin.
Qed.

Lemma failing_tests_stop_the_release_witness :
  exit_status (release red_tests []) = 1 /\
  commands (release red_tests [])
  = [git_status_porcelain; node_p read_version_script;
     node_p (bump_script patch "1.4.2"); grep_q_test; npm_test].
Proof.
  destruct (failing_tests_stop_the_release red_tests []) as [Hs _].
  - cbn. auto 10.
  - discriminate.
  - split; [exact Hs | reflexivity].
Defined.

(** X18: git is left alone when it is to be skipped.  With [--skip-git] on
    the command line, or without a git command, or outside a repository,
    the script runs no git command at all: no status, add, commit or
    tag. *)
Theorem git_is_left_alone_when_skipped (sh : Shell) (argv : list string) :
  In "--skip-git" argv \/ git_command sh = false \/ git_directory sh = false ->
  forallb (fun c => negb (uses_git c)) (commands (release sh argv)) = true.
Proof.
  intros Hskip.
  destruct (release_after_parsing sh argv)
    as [[_ E] | [(code & e & E & He) | (o & Hpkg & Hp & _)]].
  - now rewrite E.
  - rewrite E. unfold commands. cbn [snd]. now rewrite He.
  - assert (Hs : SKIP_GIT o = true \/ git_command sh = false
                 \/ git_directory sh = false).
    { destruct Hskip as [H|H]; [left | right; exact H].
      pose proof (parse_arguments_next _ _ _ _ Hp) as (_ & _ & _ & _ & Hsg & _).
      apply given_In in H. now rewrite Hsg, H. }
    clear Hskip. stages sh argv o Hp Hpkg;
      destruct Hgit as (_ & Hg & _);
      destruct (Hg Hs) as (Hnil & o3 & Ho3 & Hskip); try discriminate Ho3;
      injection Ho3 as <-; rewrite Hnil; cbn [app];
      destruct Hver as (Hv & _).
    + rewrite forallb_app. apply andb_true_iff. split; [|reflexivity].
      apply forallb_forall. intros c Hc. apply Hv in Hc.
      destruct Hc as [s ->]. reflexivity.
    + destruct Htest as (Ht & _). destruct Hpub as (_ & Hpg & _).
      rewrite !forallb_app, !andb_true_iff. repeat split;
        apply forallb_forall; intros c Hc.
      * apply Hv in Hc. destruct Hc as [s ->]. reflexivity.
      * apply Ht in Hc. destruct Hc as [-> | ->]; reflexivity.
      * now rewrite (Hpg Hskip c Hc).
    + destruct Htest as (Ht & _).
      rewrite !forallb_app, !andb_true_iff. repeat split;
        apply forallb_forall; intros c Hc.
      * apply Hv in Hc. destruct Hc as [s ->]. reflexivity.
      * apply Ht in Hc. destruct Hc as [-> | ->]; reflexivity.
    + apply forallb_forall. intros c Hc. apply Hv in Hc.
      destruct Hc as [s ->]. reflexivity.
Qed.

Lemma git_is_left_alone_when_skipped_witness :
  forallb (fun c => negb (uses_git c))
          (commands (release fine ["--skip-git"; "--skip-tests"])) = true /\
  commands (release fine ["--skip-git"; "--skip-tests"])
  = [node_p read_version_script; node_p (bump_script patch "1.4.2");
     npm_version "1.4.3"; chmod_x_index; npm_publish].
Proof.
  split; [|reflexivity].
  apply (git_is_left_alone_when_skipped fine ["--skip-git"; "--skip-tests"]).
  left. left. reflexivity.
Defined.

(** X19: nothing is published before the rest has succeeded.  When
    [npm publish] is run, [npm version] has been run with the one new
    version of this run and returned 0, as did [chmod], the tests if they
    were run, and, when git is in use, the commit and the tag [v] plus that
    version; the script then ends with the status of [npm publish]. *)
Theorem nothing_is_published_before_the_rest_succeeded (sh : Shell)
    (argv : list string) :
  In npm_publish (commands (release sh argv)) ->
  exists v,
    In (npm_version v) (commands (release sh argv)) /\
    (forall w, In (npm_version w) (commands (release sh argv)) -> w = v) /\
    (forall c, In c (commands (release sh argv)) ->
               changes c = true \/ c = npm_test ->
               c = npm_publish \/ status sh c = 0) /\
    (In git_add_package_json (commands (release sh argv)) ->
     In (git_commit ("chore: bump version to " ++ v)) (commands (release sh argv)) /\
     In (git_tag ("v" ++ v) ("Release v" ++ v)) (commands (release sh argv))) /\
    exit_status (release sh argv) = status sh npm_publish.
Proof.
  intros Hin.
  destruct (release_after_parsing sh argv)
    as [[_ E] | [(code & e & E & He) | (o & Hpkg & Hp & _)]].
  - rewrite E in Hin. destruct Hin.
  - rewrite E in Hin. unfold commands in Hin. cbn [snd] in Hin.
    rewrite He in Hin. destruct Hin.
  - stages sh argv o Hp Hpkg;
      destruct Hgit as (Hg & _);
      [destruct Hver as (Hv & _) | destruct Hver as (Hv & _)
      |destruct Hver as (Hv & _) | destruct Hver as (Hv & _) | ].
    + exfalso. apply in_app_or in Hin. destruct Hin as [H|H].
      * apply (in_git_stage _ _ Hg) in H. discriminate H.
      * apply in_app_or in H. destruct H as [H|[]].
        apply Hv in H. destruct H as [s H]. discriminate H.
    + destruct Htest as (Ht & [(u & _ & Hok)|[Hex _]] & _); [|discriminate Hex].
      destruct Hpub as (Hch & Hpg & Hshape & Hpub).
      assert (Hep : In npm_publish (executed (snd (publish sh o2 v)))).
      { apply in_app_or in Hin. destruct Hin as [H|H].
        - apply (in_git_stage _ _ Hg) in H. discriminate H.
        - apply in_app_or in H. destruct H as [H|H].
          + apply Hv in H. destruct H as [s H]. discriminate H.
          + apply in_app_or in H. destruct H as [H|H]; [|exact H].
            apply Ht in H. destruct H as [H|H]; discriminate H. }
      destruct (Hpub Hep) as (Hnv & Hzero & Hgit & Hexit).
      exists v. split; [auto 10 using in_or_app|]. split; [|split; [|split]].
      * intros w Hw. apply in_app_or in Hw. destruct Hw as [H|H].
        { apply (in_git_stage _ _ Hg) in H. discriminate H. }
        apply in_app_or in H. destruct H as [H|H].
        { apply Hv in H. destruct H as [s H]. discriminate H. }
        apply in_app_or in H. destruct H as [H|H].
        { apply Ht in H. destruct H as [H|H]; discriminate H. }
        apply Hshape in H. decompose [or] H; try discriminate.
        congruence.
      * intros c Hc Hk. apply in_app_or in Hc. destruct Hc as [H|H].
        { apply (in_git_stage _ _ Hg) in H. subst c.
          destruct Hk as [Hk|Hk]; discriminate Hk. }
        apply in_app_or in H. destruct H as [H|H].
        { apply Hv in H. destruct H as [s ->].
          destruct Hk as [Hk|Hk]; discriminate Hk. }
        apply in_app_or in H. destruct H as [H|H].
        { pose proof (Ht _ H) as [-> | ->].
          - destruct Hk as [Hk|Hk]; discriminate Hk.
          - right. apply Hok, H. }
        apply Hzero, H.
      * intros Hadd. destruct (SKIP_GIT o2) eqn:Es.
        { exfalso. apply in_app_or in Hadd. destruct Hadd as [H|H].
          { apply (in_git_stage _ _ Hg) in H. discriminate H. }
          apply in_app_or in H. destruct H as [H|H].
          { apply Hv in H. destruct H as [s H]. discriminate H. }
          apply in_app_or in H. destruct H as [H|H].
          { apply Ht in H. destruct H as [H|H]; discriminate H. }
          apply (Hpg eq_refl) in H. discriminate H. }
        destruct (Hgit eq_refl) as [Hc Htag].
        split; auto 10 using in_or_app.
      * exact Hexit.
    + exfalso. destruct Htest as (Ht & _).
      apply in_app_or in Hin. destruct Hin as [H|H].
      * apply (in_git_stage _ _ Hg) in H. discriminate H.
      * apply in_app_or in H. destruct H as [H|H].
        -- apply Hv in H. destruct H as [s H]. discriminate H.
        -- apply Ht in H. destruct H as [H|H]; discriminate H.
    + exfalso. apply in_app_or in Hin. destruct Hin as [H|H].
      * apply (in_git_stage _ _ Hg) in H. discriminate H.
      * apply Hv in H. destruct H as [s H]. discriminate H.
    + exfalso. apply (in_git_stage _ _ Hg) in Hin. discriminate Hin.
Qed.

Lemma nothing_is_published_before_the_rest_succeeded_witness :
  exists v,
    In (npm_version v) (commands (release fine ["--major"])) /\
    In (git_tag ("v" ++ v) ("Release v" ++ v))
       (commands (release fine ["--major"])).
Proof.
  destruct (nothing_is_published_before_the_rest_succeeded fine ["--major"])
    as (v & Hv & _ & _ & Hgit & _).
  - cbn. auto 20.
  - exists v. split; [exact Hv|]. apply Hgit. cbn. auto 20.
Defined.

Lemma nonempty_spec (s : string) : nonempty s = true <-> s <> "".
Proof. destruct s; cbn; split; congruence. Qed.

(** X20: uncommitted changes stop the release.  With git in use and
    without [--force], a non-empty answer of [git status --porcelain] ends
    the script with status 1 right after that command: the version is not
    even read. *)
Theorem uncommitted_changes_stop_the_release (sh : Shell) (argv : list string) :
  package_json sh = true ->
  Forall (fun arg => accepted arg = true) argv ->
  ~ In "--force" argv -> ~ In "--skip-git" argv ->
  git_command sh = true -> git_directory sh = true ->
  stdout sh git_status_porcelain <> "" ->
  release sh argv
  = (Exit 1,
     [exec git_status_porcelain;
      print RED "Error: Working directory is not clean. Please commit or stash your changes before releasing.";
      print YELLOW "Or use --force to release anyway (use with caution)."]).
Proof.
  intros Hpkg Hacc Hforce Hskip Hgit Hdir Hout.
  destruct (parse_arguments_accepted argv Hacc [] (defaults sh))
    as (o & Hp & _).
  pose proof (parse_arguments_next _ _ _ _ Hp)
    as (_ & _ & _ & _ & Hsg & _ & Hf & _).
  cbn [defaults SKIP_GIT FORCE orb] in Hsg, Hf.
  assert (Ef : FORCE o = false).
  { rewrite Hf. destruct (given "--force" argv) eqn:E; [|reflexivity].
    apply given_In in E. contradiction. }
  assert (Es : SKIP_GIT o = false).
  { rewrite Hsg. destruct (given "--skip-git" argv) eqn:E; [|reflexivity].
    apply given_In in E. contradiction. }
  apply nonempty_spec in Hout.
  unfold release. rewrite Hpkg, Hp. cbn [negb]. rewrite bind_ret_nil.
  unfold_script. rewrite Es, Hgit, Hdir, Ef. cbn. rewrite Hout. reflexivity.
Qed.

Lemma uncommitted_changes_stop_the_release_witness :
  exit_status (release dirty ["--minor"]) = 1 /\
  commands (release dirty ["--minor"]) = [git_status_porcelain].
Proof.
  assert (E : release dirty ["--minor"]
              = (Exit 1,
                 [exec git_status_porcelain;
                  print RED "Error: Working directory is not clean. Please commit or stash your changes before releasing.";
                  print YELLOW "Or use --force to release anyway (use with caution)."])).
  { apply uncommitted_changes_stop_the_release; try reflexivity.
    - repeat constructor.
    - cbn. intros [H|[]]. discriminate H.
    - cbn. intros [H|[]]. discriminate H.
    - discriminate. }
  rewrite E. split; reflexivity.
Defined.

Lemma version_format_nonempty (v : string) :
  version_format v = true -> nonempty v = true.
Proof. destruct v; [discriminate | reflexivity]. Qed.

(** Once a custom version is set, it is the version of the run. *)
Lemma custom_version_is_released (sh : Shell) (argv : list string) (o : Options) :
  package_json sh = true ->
  parse_arguments argv (defaults sh) = (Next o, []) ->
  nonempty (CUSTOM_VERSION o) = true ->
  forall c, In c (commands (release sh argv)) ->
            match c with
            | npm_version w => w = CUSTOM_VERSION o
            | node_p s => s = read_version_script
            | git_commit m => m = "chore: bump version to " ++ CUSTOM_VERSION o
            | git_tag name m =>
                name = "v" ++ CUSTOM_VERSION o /\
                m = "Release v" ++ CUSTOM_VERSION o
            | _ => True
            end.
Proof.
  intros Hpkg Hp Hc c Hin.
  stages sh argv o Hp Hpkg; destruct Hgit as (Hg & _ & Hsame).
  - destruct (Hsame _ eq_refl) as (_ & _ & _ & _ & Hcv).
    rewrite <- Hcv in Hc. destruct Hver as (_ & Hv).
    destruct (Hv Hc) as (Hev & _). rewrite Hev in Hin.
    apply in_app_or in Hin. destruct Hin as [H|H].
    + apply (in_git_stage _ _ Hg) in H. now subst.
    + cbn in H. destruct H as [<-|[]]. reflexivity.
  - destruct (Hsame _ eq_refl) as (_ & _ & _ & _ & Hcv).
    rewrite <- Hcv in *. destruct Hver as (_ & Hv).
    destruct (Hv Hc) as (Hev & Hnew). rewrite Hev in Hin.
    rewrite <- (Hnew _ eq_refl).
    destruct Htest as (Ht & _). destruct Hpub as (_ & _ & Hshape & _).
    apply in_app_or in Hin. destruct Hin as [H|H].
    { apply (in_git_stage _ _ Hg) in H. now subst. }
    apply in_app_or in H. destruct H as [H|H].
    { cbn in H. destruct H as [<-|[]]. reflexivity. }
    apply in_app_or in H. destruct H as [H|H].
    { apply Ht in H. destruct H as [-> | ->]; exact I. }
    apply Hshape in H. decompose [or] H; subst; auto.
  - destruct (Hsame _ eq_refl) as (_ & _ & _ & _ & Hcv).
    rewrite <- Hcv in Hc. destruct Hver as (_ & Hv).
    destruct (Hv Hc) as (Hev & _). rewrite Hev in Hin.
    destruct Htest as (Ht & _).
    apply in_app_or in Hin. destruct Hin as [H|H].
    { apply (in_git_stage _ _ Hg) in H. now subst. }
    apply in_app_or in H. destruct H as [H|H].
    { cbn in H. destruct H as [<-|[]]. reflexivity. }
    apply Ht in H. destruct H as [-> | ->]; exact I.
  - destruct (Hsame _ eq_refl) as (_ & _ & _ & _ & Hcv).
    rewrite <- Hcv in Hc. destruct Hver as (_ & Hv).
    destruct (Hv Hc) as (Hev & _). rewrite Hev in Hin.
    apply in_app_or in Hin. destruct Hin as [H|H].
    { apply (in_git_stage _ _ Hg) in H. now subst. }
    cbn in H. destruct H as [<-|[]]. reflexivity.
  - apply (in_git_stage _ _ Hg) in Hin. now subst.
Qed.

Lemma version_option_in (v : string) (argv : list string) :
  In ("--version=" ++ v) argv ->
  forallb (fun arg => negb (version_option arg)) argv = false.
Proof.
  intros H. destruct (forallb _ argv) eqn:E; [|reflexivity].
  rewrite forallb_forall in E. specialize (E _ H).
  assert (Hv : version_option ("--version=" ++ v) = true)
    by (destruct v; reflexivity).
  rewrite Hv in E. discriminate E.
Qed.

(** X21: a [--version=] option decides the version.  When the command line
    holds one, every version handed to [npm version] has the x.y.z format
    and is the value of a [--version=] argument, the commit message and the
    tag are made of that same version, and node is never asked to compute a
    bump, whatever [--major], [--minor] or [--patch] say. *)
Theorem version_option_decides_the_version (sh : Shell) (argv : list string)
    (given_version : string) :
  In ("--version=" ++ given_version) argv ->
  forall c, In c (commands (release sh argv)) ->
            match c with
            | npm_version w =>
                version_format w = true /\ In ("--version=" ++ w) argv
            | node_p s => s = read_version_script
            | git_tag name m =>
                exists w, version_format w = true /\
                          In ("--version=" ++ w) argv /\
                          name = "v" ++ w /\ m = "Release v" ++ w
            | _ => True
            end.
Proof.
  intros Hopt c Hin.
  destruct (release_after_parsing sh argv)
    as [[_ E] | [(code & e & E & He) | (o & Hpkg & Hp & _)]].
  - rewrite E in Hin. destruct Hin.
  - rewrite E in Hin. unfold commands in Hin. cbn [snd] in Hin.
    rewrite He in Hin. destruct Hin.
  - pose proof (parse_arguments_next _ _ _ _ Hp)
      as (_ & _ & _ & _ & _ & _ & _ & [[Hno _]|[Hfmt Harg]]).
    + rewrite (version_option_in _ _ Hopt) in Hno. discriminate Hno.
    + pose proof (custom_version_is_released sh argv o Hpkg Hp
                    (version_format_nonempty _ Hfmt) c Hin) as H.
      destruct c; auto.
      * subst. auto.
      * destruct H as [-> ->]. eauto.
Qed.

Lemma version_option_decides_the_version_witness :
  commands (release fine ["--major"; "--version=2.0.0"; "--skip-git"])
  = [node_p read_version_script; grep_q_test; npm_test;
     npm_version "2.0.0"; chmod_x_index; npm_publish] /\
  version_format "2.0.0" = true.
Proof.
  split; [reflexivity|].
  apply (version_option_decides_the_version
           fine ["--major"; "--version=2.0.0"; "--skip-git"] "2.0.0"
           (or_intror (or_introl eq_refl)) (npm_version "2.0.0")).
  vm_compute. auto 10.
Defined.


End ReleaseProofs.
